(** * The chat endpoint of the finance-agent demo server

    A shallow embedding of [demo/server.ts]: the [POST /chat] handler, its
    session resolution against the runner's session service, and the
    streaming callback that forwards the runner's events to the client.

    The ADK runner, its session service, the genai content constructor and
    Hono's streaming API are libraries the server calls; they appear here as
    interfaces (a type class, section variables) with an in-memory instance
    that follows the behaviour the repository's README documents. *)

From Stdlib Require Import ZArith Lia Ascii String.
From stdpp Require Import base option list strings gmap.

Set Default Proof Using "Type".
Set Warnings "-register-all".
Local Open Scope string_scope.
Local Open Scope list_scope.

(** ** JavaScript values and truthiness *)

Module Js.

(** A parsed JSON value, as [c.req.json()] returns it.  JSON numbers are
    kept as integers: the handler only ever tests a number for zero. *)
Inductive value : Type :=
| Null
| Bool (b : bool)
| Num (n : Z)
| Str (s : string)
| Arr (items : list value)
| Obj (fields : list (string * value)).

(** [!!s] for a string. *)
Definition truthyStr (s : string) : bool :=
  match s with
  | EmptyString => false
  | String _ _ => true
  end.

(** [!!v] for a JSON value. *)
Definition truthy (v : value) : bool :=
  match v with
  | Null => false
  | Bool b => b
  | Num n => negb (Z.eqb n 0)
  | Str s => truthyStr s
  | Arr _ => true
  | Obj _ => true
  end.

(** [!!x] where [x] may be [undefined] (a property that is missing). *)
Definition truthyOpt (o : option value) : bool :=
  match o with
  | None => false
  | Some v => truthy v
  end.

(** [x || d] on strings that may be [undefined]. *)
Definition orElse (o : option string) (d : string) : string :=
  match o with
  | Some s => if truthyStr s then s else d
  | None => d
  end.

(** A thrown [Error]. *)
Record error : Type := Error { name : string; message : string }.

(** The outcome of an expression that may throw. *)
Inductive result (A : Type) : Type :=
| Ok (a : A)
| Throw (e : error).
Arguments Ok {A} a.
Arguments Throw {A} e.

Definition nl : string := String "010"%char EmptyString.

End Js.

(** ** Events, sessions and the session service *)

(** One part of an event's content (genai [Part]). *)
Inductive Part : Type :=
| PText (text : string)
| PFunctionCall (name : string) (args : Js.value)
| PFunctionResponse (name : string) (response : Js.value).

(** The fields of an ADK [Event] the server reads.  [ev_parts] is
    [event.content?.parts]: [None] when the content or its parts are
    missing. *)
Record Event : Type := mkEvent {
  ev_author : string;
  ev_parts : option (list Part);
  ev_final : bool;
  ev_errorCode : option string;
  ev_errorMessage : option string
}.

Abbreviation SessionState := (gmap string Js.value).

(** A session as the handler sees it ([{ id, userId, state }]), together
    with the turn history the session service keeps for it. *)
Record Session : Type := mkSession {
  sess_id : string;
  sess_userId : string;
  sess_state : SessionState;
  sess_events : list Event
}.

(** (application name, user id, conversation id) *)
Abbreviation Triple := (string * string * string)%type.

(** [const appName = 'finance_agent_app'] *)
Definition appName : string := "finance_agent_app".

(** What [await sessionService.getSession(...)] can do: resolve to a
    session, resolve to [undefined], or reject. *)
Inductive GetResult : Type :=
| GetFound (s : Session)
| GetUndefined
| GetThrew (e : Js.error).

(** What [await sessionService.createSession(...)] can do. *)
Inductive CreateResult (St : Type) : Type :=
| CreateOk (st : St) (s : Session)
| CreateThrew (e : Js.error).
Arguments CreateOk {St} st s.
Arguments CreateThrew {St} e.

(** The two operations of the runner's session service the handler calls,
    over the service's storage [St]. *)
Class SessionService (St : Type) : Type := {
  getSession : St -> Triple -> GetResult;
  createSession : St -> Triple -> SessionState -> CreateResult St
}.

(** The in-memory session service: a map from triples to sessions.
    [getSession] resolves to [undefined] for an unknown triple and
    [createSession] stores a session with the given state and no events,
    replacing whatever was stored under the triple (README, "Session
    Persistence Bug": "createSession() overwrites any existing session with
    the same ID").  This is the service for session ids that are plain
    non-empty names; what the ADK's service does with the empty id is in
    [Generating] below, and names a JavaScript object inherits (such as
    [__proto__]) are outside both. *)
Module InMemory.

Abbreviation Store := (gmap Triple Session).

Definition freshSession (t : Triple) (st : SessionState) : Session :=
  mkSession (t.2) (t.1.2) st [].

Definition get (m : Store) (t : Triple) : GetResult :=
  match m !! t with
  | Some s => GetFound s
  | None => GetUndefined
  end.

Definition create (m : Store) (t : Triple) (st : SessionState)
  : CreateResult Store :=
  CreateOk (<[t := freshSession t st]> m) (freshSession t st).

#[global] Instance service : SessionService Store :=
  {| getSession := get; createSession := create |}.

End InMemory.

(** A call the handler makes to the session service. *)
Inductive Call : Type :=
| CallGet (t : Triple)
| CallCreate (t : Triple).

#[export] Instance Call_eq_dec : EqDecision Call.
Proof. solve_decision. Defined.

(** The process state the handler works on: the session service's storage,
    the calls the handler has made to the service so far (a ghost log), and
    the runner's own state. *)
Record World (St R : Type) : Type := mkWorld {
  store : St;
  calls : list Call;
  runner : R
}.
Arguments mkWorld {St R} store calls runner.
Arguments store {St R} w.
Arguments calls {St R} w.
Arguments runner {St R} w.

Definition logCall {St R} (c : Call) (w : World St R) : World St R :=
  mkWorld (store w) (calls w ++ [c]) (runner w).

Definition setStore {St R} (st : St) (w : World St R) : World St R :=
  mkWorld st (calls w) (runner w).

(** ** The response stream (Hono's [StreamingApi]) *)

(** [chunks] are the chunks delivered to the client, in order.  [aborted]
    is set once the client has gone away.  [abortIn] is the arrival of the
    abort signal: [Some n] means it arrives at the [n+1]-th point where the
    callback awaits, [None] that the client never aborts.  [abortLog]
    counts the runs of the [onAbort] callback, which only logs. *)
Record Stream : Type := mkStream {
  chunks : list string;
  aborted : bool;
  abortIn : option nat;
  abortLog : nat
}.

Definition openStream (abortAt : option nat) : Stream :=
  mkStream [] false abortAt 0.

(** An [await]: the only place where the abort signal can be delivered. *)
Definition awaitPoint (s : Stream) : Stream :=
  match abortIn s with
  | None => s
  | Some 0 => mkStream (chunks s) true None (S (abortLog s))
  | Some (S n) => mkStream (chunks s) (aborted s) (Some n) (abortLog s)
  end.

(** [await stream.write(c)]: the chunk is handed over whole unless the
    stream is already aborted, in which case the failure is swallowed by
    the streaming API; then the callback awaits. *)
Definition write (s : Stream) (c : string) : Stream :=
  awaitPoint
    (if aborted s then s
     else mkStream (chunks s ++ [c]) (aborted s) (abortIn s) (abortLog s)).

(** [await new Promise(r => setTimeout(r, 250))] *)
Definition sleep (s : Stream) : Stream := awaitPoint s.

(** ** The runner's event generator *)

(** What resuming [runAsync]'s generator can do: yield an event or throw. *)
Inductive Pull : Type :=
| Yield (ev : Event)
| Raise (e : Js.error).

(** One suspended segment of the generator.  Resuming it runs the runner
    up to its next [yield]: it may change the process state (the session
    service's storage, the runner's own state) and hands back an event or
    an exception.  A generator is the finite list of its segments; when the
    list is exhausted the generator has returned. *)
Definition GenStep (St R : Type) : Type := World St R -> World St R * Pull.
Definition Generator (St R : Type) : Type := list (GenStep St R).

(** genai [Content], as [createUserContent] builds it. *)
Record Content : Type := mkContent {
  role : string;
  parts : list Part
}.

(** ** Start-up *)

(** The environment variables the server reads. *)
Record Env : Type := mkEnv {
  GOOGLE_GENAI_API_KEY : option string;
  USE_MOCK : option string
}.

(** Line 10: [requiredEnvVars.filter(key => !process.env[key])] *)
Definition missingEnvVars (env : Env) : list string :=
  match GOOGLE_GENAI_API_KEY env with
  | Some key => if Js.truthyStr key then [] else ["GOOGLE_GENAI_API_KEY"]
  | None => ["GOOGLE_GENAI_API_KEY"]
  end.

(** Line 32: [process.env.GOOGLE_GENAI_API_KEY === 'DUMMY' ||
    process.env.USE_MOCK === '1'] *)
Definition mockModeOf (env : Env) : bool :=
  bool_decide (GOOGLE_GENAI_API_KEY env = Some "DUMMY")
  || bool_decide (USE_MOCK env = Some "1").

(** Lines 18-39: the process exits when the key is missing; otherwise it
    serves requests in the mode the environment selects. *)
Definition startup (env : Env) : option bool :=
  match missingEnvVars env with
  | [] => Some (mockModeOf env)
  | _ :: _ => None
  end.

(** ** The [POST /chat] handler *)

(** The JSON body of a request: a property that is missing is [None]. *)
Record ChatRequest : Type := mkRequest {
  req_message : option Js.value;
  req_userId : option string;
  req_sessionId : option string
}.

(** [{ userId = 'default-user' }]: the default applies to a missing
    property. *)
Definition userIdOf (req : ChatRequest) : string :=
  default "default-user" (req_userId req).

(** [{ sessionId = 'default-session' }] *)
Definition sessionIdOf (req : ChatRequest) : string :=
  default "default-session" (req_sessionId req).

(** The triple a request addresses. *)
Definition tripleOf (req : ChatRequest) : Triple :=
  (appName, userIdOf req, sessionIdOf req).

(** What the handler answers: a JSON body [{ error }] with a status, or a
    text stream together with the way the stream callback settled. *)
Inductive Response : Type :=
| RespJson (status : nat) (error : string)
| RespStream (s : Stream) (settled : Js.result unit).

(** The outcome of the session resolution: the [session] variable, or the
    500 answer of the inner [catch]. *)
Inductive Resolution : Type :=
| Resolved (s : Session)
| ResolveFailed.

(** Why the event loop stopped without an exception. *)
Inductive LoopExit : Type :=
| LoopBreak
| LoopExhausted.

(** The state the stream callback leaves behind.  [run_eventCount] is the
    loop's [eventCount]; [run_seen] lists the events the loop logged
    ([console.log(`Event ${eventCount}:`, ...)]), in order. *)
Record Run (St R : Type) : Type := mkRun {
  run_world : World St R;
  run_stream : Stream;
  run_eventCount : nat;
  run_seen : list Event
}.
Arguments mkRun {St R} _ _ _ _.
Arguments run_world {St R} r.
Arguments run_stream {St R} r.
Arguments run_eventCount {St R} r.
Arguments run_seen {St R} r.

(** [adkEvent.content?.parts?.[0]?.text] *)
Definition firstText (ev : Event) : option string :=
  match ev_parts ev with
  | Some (PText t :: _) => Some t
  | _ => None
  end.

(** [if ((adkEvent as any).errorCode)] *)
Definition hasErrorCode (ev : Event) : option string :=
  match ev_errorCode ev with
  | Some c => if Js.truthyStr c then Some c else None
  | None => None
  end.

(** [`\n[ADK ERROR ${errorCode}] ${errMsg}\n`] *)
Definition adkErrorChunk (code errMsg : string) : string :=
  Js.nl +:+ "[ADK ERROR " +:+ code +:+ "] " +:+ errMsg +:+ Js.nl.

(** [`\n[Error: ${err.message}]`] *)
Definition thrownChunk (msg : string) : string :=
  Js.nl +:+ "[Error: " +:+ msg +:+ "]".

Definition mockChunk1 : string :=
  "Hello! This is a mock agent response." +:+ Js.nl.
Definition mockChunk2 : string :=
  "I can simulate analysis, budgeting, and reports for testing." +:+ Js.nl.
Definition mockChunk3 : string :=
  "Try: 'Analyze transactions: ...' or 'Set a budget of $100 for dining.'"
  +:+ Js.nl.

Section Server.

Context {St : Type} `{!SessionService St} {R : Type}.

(** [createUserContent] of genai: builds the user content or throws. *)
Variable createUserContent : Js.value -> Js.result Content.

(** [globalRunner.runAsync({ userId, sessionId, newMessage, runConfig })]:
    calling it only builds the generator. *)
Variable runAsync : string -> string -> Content -> Generator St R.

(** [mockMode]: the API key is ['DUMMY'] or [USE_MOCK] is ['1']. *)
Variable mockMode : bool.

(** Lines 83-112: the session the request works with.  In mock mode it is
    a local object and the session service is not called.  Otherwise
    [getSession] is tried first; when it rejects, or resolves to
    [undefined] (so that [session!.id] throws inside the [try]), the
    [catch] block calls [createSession] with an empty state. *)
Definition resolveSession (w : World St R) (userId sessionId : string)
  : World St R * Resolution :=
  if mockMode then
    (w, Resolved (mkSession sessionId userId ∅ []))
  else
    let t := (appName, userId, sessionId) in
    let w1 := logCall (CallGet t) w in
    match getSession (store w1) t with
    | GetFound s => (w1, Resolved s)
    | GetUndefined | GetThrew _ =>
        let w2 := logCall (CallCreate t) w1 in
        match createSession (store w2) t ∅ with
        | CreateOk st' s => (setStore st' w2, Resolved s)
        | CreateThrew _ => (w2, ResolveFailed)
        end
    end.

(** Lines 137-170: the [for await] loop over the runner's events. *)
Fixpoint eventLoop (gen : Generator St R) (r : Run St R)
  : Run St R * Js.result LoopExit :=
  match gen with
  | [] => (r, Js.Ok LoopExhausted)
  | step :: rest =>
      let '(w1, p) := step (run_world r) in
      let s1 := awaitPoint (run_stream r) in
      match p with
      | Raise e =>
          (mkRun w1 s1 (run_eventCount r) (run_seen r), Js.Throw e)
      | Yield ev =>
          let n := S (run_eventCount r) in
          let seen := (run_seen r ++ [ev])%list in
          match hasErrorCode ev with
          | Some code =>
              let errMsg :=
                Js.orElse (ev_errorMessage ev) "Unknown ADK error" in
              (mkRun w1 (write s1 (adkErrorChunk code errMsg)) n seen,
               Js.Ok LoopBreak)
          | None =>
              match firstText ev with
              | Some (String a text) =>
                  eventLoop rest
                    (mkRun w1 (write s1 (String a text)) n seen)
              | _ =>
                  if ev_final ev then
                    (mkRun w1 s1 n seen, Js.Ok LoopBreak)
                  else eventLoop rest (mkRun w1 s1 n seen)
              end
          end
      end
  end.

(** Lines 121-172: the body of the callback's [try]. *)
Definition streamBody (message : Js.value) (userId sessionId : string)
           (r : Run St R) : Run St R * Js.result unit :=
  if mockMode then
    let s1 := write (run_stream r) mockChunk1 in
    let s2 := write (sleep s1) mockChunk2 in
    let s3 := write (sleep s2) mockChunk3 in
    (mkRun (run_world r) s3 (run_eventCount r) (run_seen r), Js.Ok tt)
  else
    match createUserContent message with
    | Js.Throw e => (r, Js.Throw e)
    | Js.Ok userContent =>
        match eventLoop (runAsync userId sessionId userContent) r with
        | (r', Js.Ok _) => (r', Js.Ok tt)
        | (r', Js.Throw e) => (r', Js.Throw e)
        end
    end.

(** Lines 114-182: the callback given to [streamText].  The [catch] block
    writes one chunk with the error's message. *)
Definition streamCallback (message : Js.value) (userId sessionId : string)
           (w : World St R) (s : Stream) : Run St R * Js.result unit :=
  let '(r, res) := streamBody message userId sessionId (mkRun w s 0 []) in
  match res with
  | Js.Ok u => (r, Js.Ok u)
  | Js.Throw err =>
      (mkRun (run_world r)
             (write (run_stream r) (thrownChunk (Js.message err)))
             (run_eventCount r) (run_seen r),
       Js.Ok tt)
  end.

(** Lines 72-183: [app.post('/chat', ...)].  [abortAt] tells when the
    client aborts the response stream, if it does. *)
Definition chat (abortAt : option nat) (w : World St R) (req : ChatRequest)
  : World St R * Response :=
  let userId := userIdOf req in
  let sessionId := sessionIdOf req in
  match req_message req with
  | None => (w, RespJson 400 "Message is required")
  | Some message =>
      if negb (Js.truthy message) then
        (w, RespJson 400 "Message is required")
      else
        match resolveSession w userId sessionId with
        | (w', ResolveFailed) =>
            (w', RespJson 500 "Failed to create or retrieve session")
        | (w', Resolved session) =>
            let '(r, settled) :=
              streamCallback message userId sessionId w'
                             (openStream abortAt) in
            (run_world r, RespStream (run_stream r) settled)
        end
  end.

End Server.

Arguments resolveSession : simpl never.

(** ** Requests in flight: the in-memory service *)

Section Process.

Context {R : Type}.

Abbreviation IMWorld := (World InMemory.Store R).

(** *** Interleaved requests

    Between two [await]s a handler runs alone; at an [await] another
    handler may run.  The session resolution of lines 88-111 awaits
    twice, so a request in flight is in one of three states. *)
Inductive Pending : Type :=
| AwaitGet (userId sessionId : string)
| AwaitCreate (userId sessionId : string)
| Settled (res : Resolution).

(** The part of the resolution that runs up to the next [await]. *)
Definition resolveStep (w : IMWorld) (p : Pending) : IMWorld * Pending :=
  match p with
  | AwaitGet u i =>
      let t := (appName, u, i) in
      let w1 := logCall (CallGet t) w in
      match getSession (store w1) t with
      | GetFound s => (w1, Settled (Resolved s))
      | GetUndefined | GetThrew _ => (w1, AwaitCreate u i)
      end
  | AwaitCreate u i =>
      let t := (appName, u, i) in
      let w2 := logCall (CallCreate t) w in
      match createSession (store w2) t ∅ with
      | CreateOk st' s => (setStore st' w2, Settled (Resolved s))
      | CreateThrew _ => (w2, Settled ResolveFailed)
      end
  | Settled res => (w, Settled res)
  end.

(** A scheduler's choice: resume the request with the given index, or let
    a running turn change a stored session. *)
Inductive Action : Type :=
| Resume (caller : nat)
| Turn (t : Triple) (f : Session -> Session).

Definition act (st : IMWorld * list Pending) (a : Action)
  : IMWorld * list Pending :=
  match a with
  | Resume i =>
      match st.2 !! i with
      | Some p =>
          let '(w', p') := resolveStep st.1 p in
          (w', <[i := p']> st.2)
      | None => st
      end
  | Turn t f => (setStore (alter f t (store st.1)) st.1, st.2)
  end.

Definition runSchedule (sched : list Action) (st : IMWorld * list Pending)
  : IMWorld * list Pending :=
  foldl act st sched.


End Process.

(** ** Events of the usual kinds *)

(** An event whose first part is text. *)
Definition textEvent (text : string) : Event :=
  mkEvent "model" (Some [PText text]) false None None.

(** An event whose first part is a function call. *)
Definition callEvent (name : string) (args : Js.value) : Event :=
  mkEvent "model" (Some [PFunctionCall name args]) false None None.

(** The terminal marker: no content, [final] set. *)
Definition finalEvent : Event := mkEvent "model" None true None None.

(** An error marker. *)
Definition errorEvent (code msg : string) : Event :=
  mkEvent "model" None false (Some code) (Some msg).

(** ** The tool registry and the turn driver's steps *)

Module ToolRegistry.

(** Modelled from the spec: the tool definitions of [demo/agent.ts] and
    the registry that validates and runs them are not part of the sources
    at hand.  A tool has a unique name, an input schema (here the test
    that decides whether arguments match it) and an execution function
    [(args, session state) -> result | fails] (spec, sections 3 and 4.2). *)
Record ToolDefinition : Type := mkTool {
  tool_name : string;
  tool_schema : Js.value -> bool;
  tool_execute : Js.value -> SessionState -> option (Js.value * SessionState)
}.

Definition Registry : Type := list ToolDefinition.

Definition lookup (reg : Registry) (name : string) : option ToolDefinition :=
  List.find (fun d => String.eqb (tool_name d) name) reg.

Inductive RegisterResult : Type :=
| Registered (reg : Registry)
| DuplicateTool.

(** Modelled from the spec: [register(definition)] adds a tool, failing
    with [DuplicateTool] if the name is already registered. *)
Definition register (d : ToolDefinition) (reg : Registry) : RegisterResult :=
  match lookup reg (tool_name d) with
  | Some _ => DuplicateTool
  | None => Registered (reg ++ [d])
  end.

Inductive ToolFailure : Type :=
| SchemaValidationError
| ExecutionFailure
| UnknownTool.

Inductive Outcome : Type :=
| Returned (v : Js.value)
| ToolError (f : ToolFailure).

(** What one invocation leaves behind: its outcome, the session state
    after it, and whether the tool's function was run. *)
Record Invocation : Type := mkInvocation {
  inv_outcome : Outcome;
  inv_state : SessionState;
  inv_executed : bool
}.

(** Modelled from the spec: [invoke(name, args, session)] validates
    [args] against the declared schema ([SchemaValidationError] on
    mismatch), then executes the tool function against the session's
    state, then returns its result; a failure inside the function is
    captured as a tool error (spec, section 4.2).  The spec does not say
    what a name outside the registry gives; it is a tool error here. *)
Definition invoke (reg : Registry) (name : string) (args : Js.value)
           (st : SessionState) : Invocation :=
  match lookup reg name with
  | None => mkInvocation (ToolError UnknownTool) st false
  | Some d =>
      if tool_schema d args then
        match tool_execute d args st with
        | Some (v, st') => mkInvocation (Returned v) st' true
        | None => mkInvocation (ToolError ExecutionFailure) st true
        end
      else mkInvocation (ToolError SchemaValidationError) st false
  end.

(** Modelled from the spec: a unit of model output (spec, section 3),
    or the model collaborator failing with a transport error. *)
Inductive TurnEvent : Type :=
| TText (text : string)
| TToolCall (name : string) (args : Js.value)
| TFinal
| TError (code msg : string)
| TTransportFailure (e : Js.error).

(** The turn driver's state during one turn: the invocations made and the
    tool functions run, in order, the tool outcomes appended to the turn's
    context, and the content accumulated so far. *)
Record Driver : Type := mkDriver {
  drv_invoked : list (string * Js.value);
  drv_executed : list (string * Js.value);
  drv_context : list Outcome;
  drv_content : string
}.

Definition newDriver : Driver := mkDriver [] [] [] EmptyString.

Definition failureName (f : ToolFailure) : string :=
  match f with
  | SchemaValidationError => "SchemaValidationError"
  | ExecutionFailure => "ExecutionFailure"
  | UnknownTool => "UnknownTool"
  end.

(** The event that reports a tool's outcome: a function response part,
    carrying the result or the error. *)
Definition outcomeEvent (name : string) (o : Outcome) : Event :=
  match o with
  | Returned v =>
      mkEvent "tool" (Some [PFunctionResponse name v]) false None None
  | ToolError f =>
      mkEvent "tool"
        (Some [PFunctionResponse name
                 (Js.Obj [("error", Js.Str (failureName f))])])
        false None None
  end.

(** The turn record made of the accumulated content. *)
Definition turnRecord (content : string) : Event :=
  mkEvent "model" (Some [PText content]) true None None.

Definition unknownSession : Js.error :=
  Js.Error "UnknownSession" "the session was never resolved".

Abbreviation DWorld := (World InMemory.Store Driver).

(** Modelled from the spec: what the turn driver does with one model
    event, for the session under [t] (spec, section 4.3).  Text is
    accumulated and passed on; a tool call goes through [invoke] and its
    result or tool error is appended to the turn's context and reported
    as an event; the final marker appends the turn record to the
    session's history; an error event is passed on; a transport failure
    is thrown.  The loop that resumes these steps is the server's. *)
Definition driverStep (reg : Registry) (t : Triple) (e : TurnEvent)
  : GenStep InMemory.Store Driver :=
  fun w =>
    let d := runner w in
    match e with
    | TText text =>
        (mkWorld (store w) (calls w)
                 (mkDriver (drv_invoked d) (drv_executed d) (drv_context d)
                           (drv_content d +:+ text)),
         Yield (textEvent text))
    | TToolCall name args =>
        match store w !! t with
        | None => (w, Raise unknownSession)
        | Some s =>
            let i := invoke reg name args (sess_state s) in
            let s' := mkSession (sess_id s) (sess_userId s) (inv_state i)
                                (sess_events s) in
            (mkWorld (<[t := s']> (store w)) (calls w)
                     (mkDriver (drv_invoked d ++ [(name, args)])
                               (if inv_executed i
                                then drv_executed d ++ [(name, args)]
                                else drv_executed d)
                               (drv_context d ++ [inv_outcome i])
                               (drv_content d)),
             Yield (outcomeEvent name (inv_outcome i)))
        end
    | TFinal =>
        match store w !! t with
        | None => (w, Raise unknownSession)
        | Some s =>
            let s' := mkSession (sess_id s) (sess_userId s) (sess_state s)
                        (sess_events s ++ [turnRecord (drv_content d)]) in
            (mkWorld (<[t := s']> (store w)) (calls w) d, Yield finalEvent)
        end
    | TError code msg => (w, Yield (errorEvent code msg))
    | TTransportFailure err => (w, Raise err)
    end.

(** The generator a turn gives the server: one segment per model event. *)
Definition driveTurn (reg : Registry) (t : Triple) (es : list TurnEvent)
  : Generator InMemory.Store Driver :=
  map (driverStep reg t) es.

(** Modelled from the spec: the failure of a turn whose tool loop has
    reached its ceiling (spec, section 6: [ToolLoopExceeded], fatal to the
    turn, surfaced as an error chunk, the turn not marked [Final]). *)
Definition toolLoopExceeded : Js.error :=
  Js.Error "ToolLoopExceeded" "ToolLoopExceeded: the tool loop reached its ceiling".

(** Modelled from the spec: the turn driver's step under an iteration
    ceiling [cap], given as configuration (spec, sections 4.3 and 9).  A
    tool call is dispatched while fewer than [cap] have been in this turn;
    the next one fails the turn with [ToolLoopExceeded] and dispatches
    nothing.  Every other event is handled as [driverStep] does. *)
Definition cappedStep (cap : nat) (reg : Registry) (t : Triple)
           (e : TurnEvent) : GenStep InMemory.Store Driver :=
  fun w =>
    match e with
    | TToolCall _ _ =>
        if Nat.ltb (length (drv_invoked (runner w))) cap
        then driverStep reg t e w
        else (w, Raise toolLoopExceeded)
    | _ => driverStep reg t e w
    end.

(** Modelled from the spec: the model collaborator, re-entered with the
    turn's context (the tool outcomes appended so far) and answering with
    its next event (spec, section 4.3, [DispatchingTool]). *)
Definition Model : Type := list Outcome -> TurnEvent.

(** Modelled from the spec: a model collaborator that always returns a
    tool call (spec, section 7); [next] picks the call from the context. *)
Definition alwaysCalls (next : list Outcome -> string * Js.value) : Model :=
  fun ctx => TToolCall (next ctx).1 (next ctx).2.

(** Modelled from the spec: one round of a turn, in which the driver
    re-enters the model with the context and handles its answer. *)
Definition modelStep (cap : nat) (reg : Registry) (t : Triple)
           (model : Model) : GenStep InMemory.Store Driver :=
  fun w => cappedStep cap reg t (model (drv_context (runner w))) w.

(** Modelled from the spec: a turn as the generator of its rounds, for a
    consumer that is ready to resume it [rounds] times. *)
Definition modelTurn (cap : nat) (reg : Registry) (t : Triple)
           (model : Model) (rounds : nat)
  : Generator InMemory.Store Driver :=
  replicate rounds (modelStep cap reg t model).




End ToolRegistry.

(** ** Collaborators to run the handler with *)

(** A content constructor that accepts a string message and throws on any
    other value. *)
Definition stringContent (v : Js.value) : Js.result Content :=
  match v with
  | Js.Str s => Js.Ok (mkContent "user" [PText s])
  | _ => Js.Throw (Js.Error "Error"
                     "partOrString must be a Part object, string, or array")
  end.

(** A runner that yields the given events and leaves the process state
    alone. *)
Definition scriptedRunner {St R} (evs : list Event)
  : string -> string -> Content -> Generator St R :=
  fun _ _ _ => map (fun ev w => (w, Yield ev)) evs.

Definition appendEvent (ev : Event) (s : Session) : Session :=
  mkSession (sess_id s) (sess_userId s) (sess_state s) (sess_events s ++ [ev]).

(** A runner that yields the given events and, as the ADK runner does,
    appends each event to the history of the session it runs on when it
    yields it. *)
Definition recordingRunner {R} (evs : list Event)
  : string -> string -> Content -> Generator InMemory.Store R :=
  fun userId sessionId _ =>
    map (fun ev w =>
           (setStore (alter (appendEvent ev) (appName, userId, sessionId)
                            (store w)) w,
            Yield ev)) evs.


Definition emptyWorld {R} (r : R) : World InMemory.Store R :=
  mkWorld ∅ [] r.

(** ** What the event loop makes of an event *)

(** The text chunk the loop writes for an event, if any: the first part's
    text when it is not empty and the event carries no error code. *)
Definition forwarded (ev : Event) : option string :=
  match hasErrorCode ev with
  | Some _ => None
  | None =>
      match firstText ev with
      | Some (String a text) => Some (String a text)
      | _ => None
      end
  end.

(** The error chunk the loop writes for an event, if any. *)
Definition errorMarker (ev : Event) : option string :=
  match hasErrorCode ev with
  | Some code =>
      Some (adkErrorChunk code
              (Js.orElse (ev_errorMessage ev) "Unknown ADK error"))
  | None => None
  end.

(** The events after which the loop goes on to the next one. *)
Definition continues (ev : Event) : Prop :=
  hasErrorCode ev = None /\ (forwarded ev = None -> ev_final ev = false).

(** The events the generator yields when all its segments are resumed in
    turn, up to the first exception. *)
Fixpoint arrivals {St R} (gen : Generator St R) (w : World St R)
  : list Event :=
  match gen with
  | [] => []
  | step :: rest =>
      match step w with
      | (w1, Yield ev) => ev :: arrivals rest w1
      | (_, Raise _) => []
      end
  end.

(** What the loop writes for an event it has taken from the generator. *)
Definition emitted (ev : Event) : list string :=
  match errorMarker ev with
  | Some c => [c]
  | None =>
      match forwarded ev with
      | Some t => [t]
      | None => []
      end
  end.

(** How the events taken by one run of the loop are laid out, by the way
    the loop ended: a [break] comes right after the one event that does not
    let the loop go on, otherwise every event lets it go on. *)
Definition stopsAt (res : Js.result LoopExit) (new : list Event) : Prop :=
  match res with
  | Js.Ok LoopBreak =>
      exists pre last,
        new = pre ++ [last] /\ Forall continues pre /\ ~ continues last
  | Js.Ok LoopExhausted | Js.Throw _ => Forall continues new
  end.

(** A stream whose client stays: not aborted, and no abort to come. *)
Definition attended (s : Stream) : Prop :=
  aborted s = false /\ abortIn s = None.

(** A stream [s] whose client may have aborted, against the stream [s0]
    of the same writes to a client that stays: [s] has delivered an initial
    stretch of what [s0] has, and all of it as long as it is not aborted. *)
Definition behind (s s0 : Stream) : Prop :=
  attended s0
  /\ chunks s `prefix_of` chunks s0
  /\ (aborted s = false -> chunks s = chunks s0).

(** Two tools to run the registry with: one stores its arguments, which
    must be an object, under [budgetGoals]; the other takes anything and
    fails when no goals are stored. *)
Definition setBudgetGoal : ToolRegistry.ToolDefinition :=
  ToolRegistry.mkTool "set_budget_goal"
    (fun args => match args with Js.Obj _ => true | _ => false end)
    (fun args st => Some (Js.Str "stored", <["budgetGoals" := args]> st)).

Definition calculateBudgetStatus : ToolRegistry.ToolDefinition :=
  ToolRegistry.mkTool "calculate_budget_status"
    (fun _ => true)
    (fun _ st =>
       match st !! "budgetGoals" with
       | Some goals => Some (goals, st)
       | None => None
       end).

Definition financeTools : ToolRegistry.Registry :=
  [setBudgetGoal; calculateBudgetStatus].

(** ** Static files *)

(** [s] without the prefix [pre], when it starts with it. *)
Fixpoint stripPrefix (pre s : string) : option string :=
  match pre, s with
  | EmptyString, _ => Some s
  | String a pre', String b s' =>
      if Ascii.eqb a b then stripPrefix pre' s' else None
  | String _ _, EmptyString => None
  end.

(** Line 60: [url.pathname.replace(/^\/public\//, '')] *)
Definition stripPublic (pathname : string) : string :=
  default pathname (stripPrefix "/public/" pathname).

(** [s.split(sep)] for a separator of one character: never empty. *)
Fixpoint splitOn (sep : ascii) (s : string) : list string :=
  match s with
  | EmptyString => [EmptyString]
  | String a rest =>
      if Ascii.eqb a sep then EmptyString :: splitOn sep rest
      else
        match splitOn sep rest with
        | h :: t => String a h :: t
        | [] => [String a EmptyString]
        end
  end.

(** Line 63: [pathname.split('.').pop() || ''] *)
Definition extension (pathname : string) : string :=
  Js.orElse (last (splitOn "." pathname)) EmptyString.

(** Line 64: the content type by extension. *)
Definition contentTypeOf (ext : string) : string :=
  if String.eqb ext "js" then "application/javascript"
  else if String.eqb ext "css" then "text/css"
  else "text/html".

(** What the two [GET] routes answer: a body with a status and content
    type ([c.body]), an HTML page ([c.html]), or a plain text with a status
    ([c.text]). *)
Inductive StaticResponse : Type :=
| StaticBody (data : string) (status : nat) (contentType : string)
| StaticHtml (html : string)
| StaticText (text : string) (status : nat).

Section StaticRoutes.

(** [fs.readFileSync(new URL(ref, import.meta.url))] for a reference [ref]
    relative to the server's module: the file's content, or an exception
    when it cannot be read. *)
Variable readFileSync : string -> Js.result string.

(** Lines 45-54: [app.get('/', ...)] *)
Definition serveIndex : StaticResponse :=
  match readFileSync "./public/index.html" with
  | Js.Ok html => StaticHtml html
  | Js.Throw _ =>
      StaticText "Finance Agent Hono Server is running! (UI not found)" 200
  end.

(** Lines 57-70: [app.get('/public/*', ...)], for the request's
    [url.pathname]. *)
Definition servePublic (urlPathname : string) : StaticResponse :=
  let pathname := stripPublic urlPathname in
  match readFileSync ("./public/" +:+ pathname) with
  | Js.Ok data => StaticBody data 200 (contentTypeOf (extension pathname))
  | Js.Throw _ => StaticText "Not found" 404
  end.

End StaticRoutes.

(** A file system given by the files it holds. *)
Definition readFrom (files : gmap string string) (ref : string)
  : Js.result string :=
  match files !! ref with
  | Some data => Js.Ok data
  | None => Js.Throw (Js.Error "Error" "ENOENT: no such file or directory")
  end.

(** The separator does not occur in the string. *)
Fixpoint freeOf (sep : ascii) (s : string) : bool :=
  match s with
  | EmptyString => true
  | String a rest => negb (Ascii.eqb a sep) && freeOf sep rest
  end.

(** ** A session service that is down *)

Module Unavailable.

Definition down : Js.error := Js.Error "Error" "session service unavailable".

#[global] Instance service : SessionService unit :=
  {| getSession := fun _ _ => GetThrew down;
     createSession := fun _ _ _ => CreateThrew down |}.

End Unavailable.

(** ** Streams compared by the time of their abort *)

(** [a] comes no later than [b], for the arrival of an abort signal. *)
Definition noLater (a b : option nat) : Prop :=
  match a, b with
  | _, None => True
  | Some n, Some m => n <= m
  | None, Some _ => False
  end.

(** The stream [s] of a client that aborts no later than the client of
    [s'], after the same writes: [s] has delivered an initial stretch of
    what [s'] has, and as long as [s] is not aborted the two agree. *)
Definition sooner (s s' : Stream) : Prop :=
  chunks s `prefix_of` chunks s'
  /\ (aborted s = false ->
      chunks s = chunks s' /\ aborted s' = false
      /\ noLater (abortIn s) (abortIn s')).

(** ** The browser page *)

Module Ui.

Section Page.

(** The characters [String.prototype.trim] removes. *)
Variable isWhite : ascii -> bool.

Fixpoint trimStart (s : string) : string :=
  match s with
  | EmptyString => EmptyString
  | String c rest => if isWhite c then trimStart rest else s
  end.

Fixpoint trimEnd (s : string) : string :=
  match s with
  | EmptyString => EmptyString
  | String c rest =>
      match trimEnd rest with
      | EmptyString => if isWhite c then EmptyString else String c EmptyString
      | String d t => String c (String d t)
      end
  end.

(** [s.trim()] *)
Definition trim (s : string) : string := trimEnd (trimStart s).

(** Every character of the string is one that [trim] removes. *)
Fixpoint allWhite (s : string) : bool :=
  match s with
  | EmptyString => true
  | String c rest => isWhite c && allWhite rest
  end.

(** The page: the values of the three inputs, the text of the output
    box, the two buttons, the status line, and whether [controller] holds
    an [AbortController]. *)
Record State : Type := mkState {
  userIdEl : string;
  sessionIdEl : string;
  messageEl : string;
  outputEl : string;
  sendDisabled : bool;
  cancelDisabled : bool;
  statusEl : string;
  controller : bool
}.

(** The object the page sends as JSON. *)
Record Body : Type := mkBody {
  body_message : string;
  body_userId : string;
  body_sessionId : string
}.

(** How reading the response body ends. *)
Inductive ReadEnd : Type :=
| ReadDone
| ReadRejected (err : Js.error).

(** What [fetch] and the reading of the response come to: [fetch]
    rejects; the response is not ok and [res.text()] gives its text or
    rejects; or the response is ok and the reader hands over chunks (here
    the texts the decoder makes of them) until it is done or rejects. *)
Inductive FetchResult : Type :=
| FetchRejected (err : Js.error)
| FetchNotOk (text : Js.result string)
| FetchOk (reads : list string) (ending : ReadEnd).

(** [v || d] *)
Definition orDefault (v d : string) : string :=
  if Js.truthyStr v then v else d.

(** Lines 12-14 *)
Definition setStatus (text : string) (st : State) : State :=
  mkState (userIdEl st) (sessionIdEl st) (messageEl st) (outputEl st)
          (sendDisabled st) (cancelDisabled st) text (controller st).

(** Lines 16-19 *)
Definition appendOutput (text : string) (st : State) : State :=
  mkState (userIdEl st) (sessionIdEl st) (messageEl st)
          (outputEl st +:+ text)
          (sendDisabled st) (cancelDisabled st) (statusEl st) (controller st).

Definition newMessageHeader : string :=
  Js.nl +:+ "--- New message ---" +:+ Js.nl.

Definition abortedNote : string := Js.nl +:+ "[Stream aborted]" +:+ Js.nl.

Definition errorNote (text : string) : string :=
  Js.nl +:+ "[Error] " +:+ text +:+ Js.nl.

(** Lines 21-32: [sendMessage] up to the call of [fetch]; [None] when the
    trimmed message is empty and the function returns at once. *)
Definition begin (st : State) : option (State * Body) :=
  let message := trim (messageEl st) in
  if negb (Js.truthyStr message) then None
  else
    let userId := orDefault (userIdEl st) "demo-user" in
    let sessionId := orDefault (sessionIdEl st) "demo-session-001" in
    let st1 := mkState (userIdEl st) (sessionIdEl st) (messageEl st)
                       (outputEl st) true false (statusEl st) (controller st) in
    let st2 := appendOutput newMessageHeader (setStatus "Streaming..." st1) in
    Some (mkState (userIdEl st2) (sessionIdEl st2) (messageEl st2)
                  (outputEl st2) (sendDisabled st2) (cancelDisabled st2)
                  (statusEl st2) true,
          mkBody message userId sessionId).

(** Lines 59-66: the [catch] block. *)
Definition catchBlock (err : Js.error) (st : State) : State :=
  if String.eqb (Js.name err) "AbortError" then
    setStatus "Aborted" (appendOutput abortedNote st)
  else
    setStatus "Error" (appendOutput (errorNote (Js.message err)) st).

(** Lines 67-71: the [finally] block. *)
Definition finallyBlock (st : State) : State :=
  mkState (userIdEl st) (sessionIdEl st) (messageEl st) (outputEl st)
          false true (statusEl st) false.

(** Lines 51-56: the chunks read are appended one by one. *)
Definition readLoop (reads : list string) (st : State) : State :=
  foldl (fun st chunk => appendOutput chunk st) st reads.

(** Lines 33-71: [sendMessage] from the moment [fetch] settles. *)
Definition finish (st : State) (res : FetchResult) : State :=
  finallyBlock
    match res with
    | FetchRejected err => catchBlock err st
    | FetchNotOk (Js.Ok text) =>
        setStatus "Error" (appendOutput (errorNote text) st)
    | FetchNotOk (Js.Throw err) => catchBlock err st
    | FetchOk reads ending =>
        let st' := readLoop reads st in
        match ending with
        | ReadDone => setStatus "Completed" st'
        | ReadRejected err => catchBlock err st'
        end
    end.

(** Lines 21-72: [sendMessage], with the requests it has sent. *)
Definition sendMessage (fetch : Body -> FetchResult) (st : State)
  : State * list Body :=
  match begin st with
  | None => (st, [])
  | Some (st1, body) => (finish st1 (fetch body), [body])
  end.

End Page.

(** Line 97: [(adkUrlEl.value || 'http://localhost:3001')
    .replace(/\/$/, '') + '/'] *)
Fixpoint dropFinalSlash (s : string) : string :=
  match s with
  | EmptyString => EmptyString
  | String c EmptyString =>
      if Ascii.eqb c "/" then EmptyString else String c EmptyString
  | String c rest => String c (dropFinalSlash rest)
  end.

Definition checkUrl (value : string) : string :=
  dropFinalSlash (orDefault value "http://localhost:3001") +:+ "/".

Fixpoint endsWithSlash (s : string) : bool :=
  match s with
  | EmptyString => false
  | String c EmptyString => Ascii.eqb c "/"
  | String _ rest => endsWithSlash rest
  end.

(** The white space of the ASCII range. *)
Definition asciiWhite (c : ascii) : bool :=
  let n := nat_of_ascii c in
  Nat.eqb n 32 || (Nat.leb 9 n && Nat.leb n 13).

End Ui.

(** ** The page against the server *)

(** The request the handler sees for a body the page has sent. *)
Definition requestOfBody (b : Ui.Body) : ChatRequest :=
  mkRequest (Some (Js.Str (Ui.body_message b)))
            (Some (Ui.body_userId b)) (Some (Ui.body_sessionId b)).

Definition quote : string := String "034"%char EmptyString.

(** The text of [c.json({ error })] for a message that needs no escapes. *)
Definition jsonErrorBody (error : string) : string :=
  "{" +:+ quote +:+ "error" +:+ quote +:+ ":" +:+ quote +:+ error
  +:+ quote +:+ "}".

(** What the page's [fetch] gets for an answer of the handler to a client
    that stays: a JSON answer with its status, or the chunks of the stream
    up to its end. *)
Definition fetchResultOf (resp : Response) : Ui.FetchResult :=
  match resp with
  | RespJson status error =>
      if Nat.leb 200 status && Nat.leb status 299
      then Ui.FetchOk [jsonErrorBody error] Ui.ReadDone
      else Ui.FetchNotOk (Js.Ok (jsonErrorBody error))
  | RespStream s _ => Ui.FetchOk (chunks s) Ui.ReadDone
  end.

(** One [sendMessage] of the page against the handler. *)
Definition sendToServer {St} `{!SessionService St} {R}
           (isWhite : ascii -> bool)
           (createUserContent : Js.value -> Js.result Content)
           (runAsync : string -> string -> Content -> Generator St R)
           (mockMode : bool) (w : World St R) (st : Ui.State)
  : World St R * Ui.State :=
  match Ui.begin isWhite st with
  | None => (w, st)
  | Some (st1, body) =>
      let '(w', resp) :=
        chat createUserContent runAsync mockMode None w (requestOfBody body) in
      (w', Ui.finish st1 (fetchResultOf resp))
  end.

(** ** The loop, from the events that arrive *)

(** Whether the loop goes on to the next event after this one: the test
    for [continues]. *)
Definition goesOn (ev : Event) : bool :=
  match hasErrorCode ev with
  | Some _ => false
  | None =>
      match forwarded ev with
      | Some _ => true
      | None => negb (ev_final ev)
      end
  end.

(** Of the events that arrive, those up to and including the first after
    which the loop does not go on. *)
Fixpoint upToStop (evs : list Event) : list Event :=
  match evs with
  | [] => []
  | ev :: rest => if goesOn ev then ev :: upToStop rest else [ev]
  end.

(** The first event that arrives after which the loop does not go on. *)
Definition stopOf (evs : list Event) : option Event :=
  List.find (fun ev => negb (goesOn ev)) evs.

(** The exception the generator ends in when all its segments are resumed
    in turn, if it ends in one. *)
Fixpoint failure {St R} (gen : Generator St R) (w : World St R)
  : option Js.error :=
  match gen with
  | [] => None
  | step :: rest =>
      match step w with
      | (w1, Yield _) => failure rest w1
      | (_, Raise e) => Some e
      end
  end.

(** How the loop leaves a generator, told from what arrives: by [break]
    at the first event that stops it, else by the generator's exception,
    else at the generator's end. *)
Definition exitOf {St R} (gen : Generator St R) (w : World St R)
  : Js.result LoopExit :=
  match stopOf (arrivals gen w) with
  | Some _ => Js.Ok LoopBreak
  | None =>
      match failure gen w with
      | Some e => Js.Throw e
      | None => Js.Ok LoopExhausted
      end
  end.

(** What is written after the texts of a turn: the error chunk of the
    event that stopped the loop, if it carries an error code; the chunk
    for the generator's exception, if the loop met it; else nothing. *)
Definition closing {St R} (gen : Generator St R) (w : World St R)
  : list string :=
  match stopOf (arrivals gen w) with
  | Some stop => option_list (errorMarker stop)
  | None =>
      match failure gen w with
      | Some err => [thrownChunk (Js.message err)]
      | None => []
      end
  end.

(** ** Runners that keep to the session *)

(** A runner none of whose segments touches the log of the handler's
    calls or removes a stored session. *)
Definition tame {R}
           (run : string -> string -> Content -> Generator InMemory.Store R)
  : Prop :=
  forall u i c,
    Forall (fun step : GenStep InMemory.Store R =>
              forall w,
                calls (step w).1 = calls w
                /\ forall T, is_Some (store w !! T)
                             -> is_Some (store (step w).1 !! T))
           (run u i c).

(** A recording runner whose events depend on the message. *)
Definition replyRunner {R} (reply : Content -> list Event)
  : string -> string -> Content -> Generator InMemory.Store R :=
  fun userId sessionId content =>
    recordingRunner (reply content) userId sessionId content.

(** The session with the given events appended to its history. *)
Definition appendEvents (evs : list Event) (s : Session) : Session :=
  foldl (fun s ev => appendEvent ev s) s evs.

(** A runner that re-enters the model [rounds] times at most, under the
    ceiling [cap], with the tools of [reg]. *)
Definition modelRunner (cap : nat) (reg : ToolRegistry.Registry)
           (model : ToolRegistry.Model) (rounds : nat)
  : string -> string -> Content
    -> Generator InMemory.Store ToolRegistry.Driver :=
  fun userId sessionId _ =>
    ToolRegistry.modelTurn cap reg (appName, userId, sessionId) model rounds.

(** ** A session service that makes up ids *)

(** The ADK's in-memory service stores a new session under
    [sessionId || randomUUID()]: a session created with the empty string
    for an id is stored under an id the service makes up, and a lookup
    with the empty string does not find it.  Other ids are used as they
    are. *)
Module Generating.

Record Store : Type := mkStore {
  sessions : gmap Triple Session;
  issued : nat
}.

Definition empty : Store := mkStore ∅ 0.

(** Stands for the [n]-th result of [randomUUID()]. *)
Fixpoint uuid (n : nat) : string :=
  match n with
  | 0 => "uuid-"
  | S k => uuid k +:+ "#"
  end.

Definition get (st : Store) (t : Triple) : GetResult :=
  match sessions st !! t with
  | Some s => GetFound s
  | None => GetUndefined
  end.

Definition create (st : Store) (t : Triple) (state : SessionState)
  : CreateResult Store :=
  let made := negb (Js.truthyStr (t.2)) in
  let id := if made then uuid (issued st) else t.2 in
  let s := mkSession id (t.1.2) state [] in
  CreateOk (mkStore (<[(t.1.1, t.1.2, id) := s]> (sessions st))
                    (if made then S (issued st) else issued st))
           s.

#[global] Instance service : SessionService Store :=
  {| getSession := get; createSession := create |}.

End Generating.

(** * Properties of the handler *)

(** ** Rejected and mock requests *)

Section HandlerFacts.

Context {St : Type} `{!SessionService St} {R : Type}.
Variable createUserContent : Js.value -> Js.result Content.
Variable runAsync : string -> string -> Content -> Generator St R.

Lemma chat_falsy_message mockMode abortAt (w : World St R) req :
  Js.truthyOpt (req_message req) = false ->
  chat createUserContent runAsync mockMode abortAt w req
  = (w, RespJson 400 "Message is required").
Proof.
  unfold chat, Js.truthyOpt.
  destruct (req_message req) as [m|]; [|done].
  by intros ->.
Qed.

Lemma chat_mock abortAt (w : World St R) req :
  Js.truthyOpt (req_message req) = true ->
  chat createUserContent runAsync true abortAt w req
  = (w, RespStream
          (write (sleep (write (sleep (write (openStream abortAt)
                                             mockChunk1)) mockChunk2))
                 mockChunk3)
          (Js.Ok tt)).
Proof.
  unfold chat, Js.truthyOpt.
  destruct (req_message req) as [m|]; [|done].
  by intros ->.
Qed.

End HandlerFacts.

(** C3: a turn submission without a [message] is answered with status 400
    and the body [{ error: 'Message is required' }], whatever the mode, the
    other fields and the collaborators; the process state is returned as it
    was: the session storage is unchanged and no call to the session
    service is logged. *)
Theorem chat_missing_message_rejected :
  forall (St : Type) (svc : SessionService St) (R : Type)
         (createUserContent : Js.value -> Js.result Content)
         (runAsync : string -> string -> Content -> Generator St R)
         (mockMode : bool) (abortAt : option nat) (w : World St R)
         (userId sessionId : option string),
    chat createUserContent runAsync mockMode abortAt w
         (mkRequest None userId sessionId)
    = (w, RespJson 400 "Message is required").
Proof. intros. by apply chat_falsy_message. Qed.

(** C9: when the environment selects mock mode (the API key is ['DUMMY']
    or [USE_MOCK] is ['1']), every request with a truthy [message] is
    answered with the same stream: two such requests get equal answers
    whatever their message, user id and session id (and whatever the
    collaborators), a client that does not abort receives exactly the three
    fixed chunks, and the process state is returned as it was, so the
    session service is neither read nor written. *)
Theorem chat_mock_is_constant :
  forall (St : Type) (svc : SessionService St) (R : Type) (env : Env)
         (cuc1 cuc2 : Js.value -> Js.result Content)
         (run1 run2 : string -> string -> Content -> Generator St R)
         (abortAt : option nat) (w : World St R) (req1 req2 : ChatRequest),
    startup env = Some true ->
    Js.truthyOpt (req_message req1) = true ->
    Js.truthyOpt (req_message req2) = true ->
    mockModeOf env = true
    /\ chat cuc1 run1 (mockModeOf env) abortAt w req1
       = chat cuc2 run2 (mockModeOf env) abortAt w req2
    /\ chat cuc1 run1 (mockModeOf env) None w req1
       = (w, RespStream
               (mkStream [mockChunk1; mockChunk2; mockChunk3] false None 0)
               (Js.Ok tt)).
Proof.
  intros St svc R env cuc1 cuc2 run1 run2 abortAt w req1 req2 Henv H1 H2.
  assert (Hmock : mockModeOf env = true).
  { unfold startup in Henv. destruct (missingEnvVars env); congruence. }
  rewrite Hmock. rewrite !chat_mock by done. done.
Qed.

Lemma chat_mock_is_constant_witness :
  let env := mkEnv (Some "DUMMY") None in
  let w := emptyWorld tt in
  let req1 := mkRequest (Some (Js.Str "Analyze my spending"))
                        (Some "alice") (Some "s1") in
  let req2 := mkRequest (Some (Js.Num 7)) None None in
  mockModeOf env = true
  /\ chat stringContent (scriptedRunner []) (mockModeOf env) (Some 2) w req1
     = chat stringContent (scriptedRunner []) (mockModeOf env) (Some 2) w req2
  /\ chat stringContent (scriptedRunner []) (mockModeOf env) None w req1
     = (w, RespStream
             (mkStream [mockChunk1; mockChunk2; mockChunk3] false None 0)
             (Js.Ok tt)).
Proof.
  apply (chat_mock_is_constant _ _ unit (mkEnv (Some "DUMMY") None));
    reflexivity.
Defined.

(** ** Session resolution against the in-memory service *)

Section Resolution.

Context {R : Type}.
Implicit Types (w : World InMemory.Store R) (T : Triple) (s : Session).

(** The live resolution, by the content of the storage. *)
Lemma resolveSession_found w u i s :
  store w !! (appName, u, i) = Some s ->
  resolveSession false w u i
  = (logCall (CallGet (appName, u, i)) w, Resolved s).
Proof.
  intros Hs. unfold resolveSession; cbn. unfold InMemory.get.
  by rewrite Hs.
Qed.

Lemma resolveSession_fresh w u i :
  store w !! (appName, u, i) = None ->
  resolveSession false w u i
  = (setStore (<[(appName, u, i) := mkSession i u ∅ []]> (store w))
              (logCall (CallCreate (appName, u, i))
                       (logCall (CallGet (appName, u, i)) w)),
     Resolved (mkSession i u ∅ [])).
Proof.
  intros Hs. unfold resolveSession; cbn. unfold InMemory.get.
  by rewrite Hs.
Qed.

End Resolution.

(** C1, at the source: a later resolution of a triple can return a fresh
    empty session although an earlier one created the session and a turn
    has written to it.  Against the in-memory service: two requests for
    one triple both look the session up before either creates it; the
    first creates it and its turn records an event; the second then
    creates it again, and a third request, started after all that, is
    handed a session with no history.  Against a service that makes up an
    id for an empty one: two requests with the session id [''] in a row
    each miss the lookup and each create a session, under two different
    ids, and the handler has called [createSession] twice. *)
Lemma later_resolve_returns_fresh_session :
  (let T := (appName, "u", "s") in
   let note := textEvent "budget stored" in
   let start : World InMemory.Store unit * list Pending :=
     (emptyWorld tt, [AwaitGet "u" "s"; AwaitGet "u" "s"; AwaitGet "u" "s"]) in
   let mid := runSchedule [Resume 0; Resume 1; Resume 0;
                           Turn T (appendEvent note)] start in
   let final := runSchedule [Resume 1; Resume 2; Resume 2] mid in
   mid.2 !! 0 = Some (Settled (Resolved (mkSession "s" "u" ∅ [])))
   /\ store mid.1 !! T = Some (mkSession "s" "u" ∅ [note])
   /\ final.2 !! 2 = Some (Settled (Resolved (mkSession "s" "u" ∅ [])))
   /\ store final.1 !! T = Some (mkSession "s" "u" ∅ []))
  /\ (let req := mkRequest (Some (Js.Str "hi")) (Some "u")
                           (Some EmptyString) in
      let T := (appName, "u", EmptyString) in
      let run : string -> string -> Content -> Generator Generating.Store unit :=
        scriptedRunner [textEvent "hello"; finalEvent] in
      let w0 : World Generating.Store unit :=
        mkWorld Generating.empty [] tt in
      let first := resolveSession false w0 (userIdOf req) (sessionIdOf req) in
      let second :=
        resolveSession false first.1 (userIdOf req) (sessionIdOf req) in
      let w1 := (chat stringContent run false None w0 req).1 in
      let w2 := (chat stringContent run false None w1 req).1 in
      tripleOf req = T
      /\ first.2 = Resolved (mkSession "uuid-" "u" ∅ [])
      /\ second.2 = Resolved (mkSession "uuid-#" "u" ∅ [])
      /\ calls w1 = [CallGet T; CallCreate T]
      /\ calls w2 = [CallGet T; CallCreate T; CallGet T; CallCreate T]
      /\ Generating.sessions (store w2) !! T = None).
Proof. cbv zeta. split_and!; vm_compute; reflexivity. Qed.

Section Defaults.

Context {R : Type}.
Implicit Types (w : World InMemory.Store R).

(** Against the in-memory service a live resolution always yields a
    session, and that session is then the one stored under the triple. *)
Lemma resolveSession_total w u i :
  exists w1 s,
    resolveSession false w u i = (w1, Resolved s)
    /\ store w1 !! (appName, u, i) = Some s.
Proof.
  destruct (store w !! (appName, u, i)) as [s|] eqn:Hs.
  - exists (logCall (CallGet (appName, u, i)) w), s.
    split; [by apply resolveSession_found | done].
  - eexists _, _. split; [by apply resolveSession_fresh|].
    apply lookup_insert_eq.
Qed.

Lemma chat_live_streams (cuc : Js.value -> Js.result Content)
      (run : string -> string -> Content -> Generator InMemory.Store R)
      (abortAt : option nat) w req :
  Js.truthyOpt (req_message req) = true ->
  exists w' s settled,
    chat cuc run false abortAt w req = (w', RespStream s settled).
Proof.
  unfold chat, Js.truthyOpt.
  destruct (req_message req) as [m|]; [|done]. intros ->; cbn.
  destruct (resolveSession_total w (userIdOf req) (sessionIdOf req))
    as (w1 & s & -> & _).
  destruct (streamCallback _ _ _ _ _ _ _ _) as [r settled]. eauto.
Qed.

End Defaults.

(** ** The response stream *)

Lemma awaitPoint_attended s : attended s -> awaitPoint s = s.
Proof. intros [_ Hin]. unfold awaitPoint. by rewrite Hin. Qed.

Lemma write_attended s c :
  attended s -> chunks (write s c) = chunks s ++ [c] /\ attended (write s c).
Proof.
  intros [Hab Hin]. unfold write. rewrite Hab.
  rewrite awaitPoint_attended; [|done]. done.
Qed.

Lemma awaitPoint_aborted s :
  aborted s = true ->
  aborted (awaitPoint s) = true /\ chunks (awaitPoint s) = chunks s.
Proof.
  intros Hab. unfold awaitPoint. by destruct (abortIn s) as [[|n]|].
Qed.

Lemma write_aborted s c :
  aborted s = true ->
  aborted (write s c) = true /\ chunks (write s c) = chunks s.
Proof. intros Hab. unfold write. rewrite Hab. by apply awaitPoint_aborted. Qed.

(** ** The event loop *)

Section Loop.

Context {St : Type} `{!SessionService St} {R : Type}.
Implicit Types (gen : Generator St R) (r : Run St R) (w : World St R).

(** One round of the loop, by what the event makes it do. *)
Lemma eventLoop_cons (step : GenStep St R) gen r :
  eventLoop (step :: gen) r
  = match step (run_world r) with
    | (w1, Raise e) =>
        (mkRun w1 (awaitPoint (run_stream r)) (run_eventCount r)
               (run_seen r), Js.Throw e)
    | (w1, Yield ev) =>
        let s1 := awaitPoint (run_stream r) in
        let n := S (run_eventCount r) in
        let seen := run_seen r ++ [ev] in
        match errorMarker ev with
        | Some c => (mkRun w1 (write s1 c) n seen, Js.Ok LoopBreak)
        | None =>
            match forwarded ev with
            | Some t => eventLoop gen (mkRun w1 (write s1 t) n seen)
            | None =>
                if ev_final ev then (mkRun w1 s1 n seen, Js.Ok LoopBreak)
                else eventLoop gen (mkRun w1 s1 n seen)
            end
        end
    end.
Proof.
  cbn [eventLoop]. destruct (step (run_world r)) as [w1 [ev|e]]; [|done].
  unfold errorMarker, forwarded. destruct (hasErrorCode ev); [done|].
  by destruct (firstText ev) as [[|a t]|].
Qed.

(** What a run of the loop has taken and in which order: the events are
    an initial stretch of what the generator yields, counted by
    [eventCount], and laid out as the exit tells. *)
Lemma eventLoop_seen gen : forall r r' res,
  eventLoop gen r = (r', res) ->
  exists new,
    run_seen r' = run_seen r ++ new
    /\ run_eventCount r' = run_eventCount r + length new
    /\ new `prefix_of` arrivals gen (run_world r)
    /\ stopsAt res new
    /\ (res = Js.Ok LoopExhausted -> new = arrivals gen (run_world r)).
Proof.
  induction gen as [|step gen IH]; intros r r' res Hrun.
  - cbn in Hrun. injection Hrun as <- <-. exists [].
    rewrite app_nil_r. cbn. split_and!; try done; try lia; try constructor.
  - rewrite eventLoop_cons in Hrun. cbn [arrivals].
    destruct (step (run_world r)) as [w1 [ev|e]].
    2:{ injection Hrun as <- <-. exists []. rewrite app_nil_r. cbn.
        split_and!; try done; try lia; try constructor. }
    cbn zeta in Hrun.
    assert (Hlast : ~ continues ev ->
              exists new,
                run_seen r ++ [ev] = run_seen r ++ new
                /\ S (run_eventCount r) = run_eventCount r + length new
                /\ new `prefix_of` ev :: arrivals gen w1
                /\ stopsAt (Js.Ok LoopBreak) new
                /\ (Js.Ok LoopBreak = Js.Ok LoopExhausted
                    -> new = ev :: arrivals gen w1)).
    { intros Hnot. exists [ev]. cbn. split_and!; try done; try lia.
      - by apply prefix_cons, prefix_nil.
      - exists [], ev. split_and!; try done; constructor. }
    assert (Hstep : forall r1 : Run St R,
               run_world r1 = w1 ->
               run_seen r1 = run_seen r ++ [ev] ->
               run_eventCount r1 = S (run_eventCount r) ->
               continues ev ->
               eventLoop gen r1 = (r', res) ->
               exists new,
                 run_seen r' = run_seen r ++ new
                 /\ run_eventCount r' = run_eventCount r + length new
                 /\ new `prefix_of` ev :: arrivals gen w1
                 /\ stopsAt res new
                 /\ (res = Js.Ok LoopExhausted
                     -> new = ev :: arrivals gen w1)).
    { intros r1 Hw Hs Hn Hcont Hr1.
      destruct (IH _ _ _ Hr1) as (new & Hseen & Hcount & Hpre & Hstop & Hex).
      exists (ev :: new). rewrite Hseen, Hs, Hcount, Hn, <- Hw.
      rewrite <- app_assoc. cbn.
      split_and!; try done; try lia; try (by apply prefix_cons).
      - destruct res as [[]|]; cbn in *.
        + destruct Hstop as (pre & last & -> & Hpre' & Hlast').
          exists (ev :: pre), last. split_and!; try done; by constructor.
        + by constructor.
        + by constructor.
      - intros Hres. by rewrite (Hex Hres). }
    destruct (errorMarker ev) as [c|] eqn:Hmark.
    { injection Hrun as <- <-. apply Hlast.
      intros [Hc _]. unfold errorMarker in Hmark. by rewrite Hc in Hmark. }
    assert (Hc : hasErrorCode ev = None).
    { unfold errorMarker in Hmark. by destruct (hasErrorCode ev). }
    destruct (forwarded ev) as [t|] eqn:Hfw.
    { eapply Hstep; last exact Hrun; try done.
      split; [done|]. by rewrite Hfw. }
    destruct (ev_final ev) eqn:Hfin.
    { injection Hrun as <- <-. apply Hlast.
      intros [_ Hf]. specialize (Hf Hfw). congruence. }
    eapply Hstep; last exact Hrun; try done.
Qed.

(** What a run of the loop delivers to a client that stays: for every
    event taken, in order, what the loop writes for it. *)
Lemma eventLoop_chunks gen : forall r r' res new,
  eventLoop gen r = (r', res) ->
  attended (run_stream r) ->
  run_seen r' = run_seen r ++ new ->
  chunks (run_stream r')
  = chunks (run_stream r) ++ flat_map emitted new
  /\ attended (run_stream r').
Proof.
  induction gen as [|step gen IH]; intros r r' res new Hrun Hatt Hseen.
  - cbn in Hrun. injection Hrun as <- <-.
    rewrite <- (app_nil_r (run_seen r)) in Hseen at 1.
    apply app_inv_head in Hseen. subst new. cbn.
    by rewrite app_nil_r.
  - rewrite eventLoop_cons in Hrun.
    rewrite (awaitPoint_attended _ Hatt) in Hrun.
    destruct (step (run_world r)) as [w1 [ev|e]].
    2:{ injection Hrun as <- <-. cbn in *.
        rewrite <- (app_nil_r (run_seen r)) in Hseen at 1.
        apply app_inv_head in Hseen. subst new. cbn.
        by rewrite app_nil_r. }
    cbn zeta in Hrun.
    assert (Hone : forall c, chunks (write (run_stream r) c)
                             = chunks (run_stream r) ++ [c]
                             /\ attended (write (run_stream r) c))
      by (intros c; by apply write_attended).
    assert (Hrec : forall (r1 : Run St R) out,
               run_seen r1 = run_seen r ++ [ev] ->
               attended (run_stream r1) ->
               chunks (run_stream r1) = chunks (run_stream r) ++ out ->
               emitted ev = out ->
               eventLoop gen r1 = (r', res) ->
               chunks (run_stream r')
               = chunks (run_stream r) ++ flat_map emitted new
               /\ attended (run_stream r')).
    { intros r1 out Hs Ha Hch Hem Hr1.
      destruct (eventLoop_seen _ _ _ _ Hr1) as (new1 & Hseen1 & _).
      rewrite Hs, <- app_assoc in Hseen1. rewrite Hseen1 in Hseen.
      apply app_inv_head in Hseen. subst new.
      destruct (IH r1 r' res new1 Hr1 Ha) as [Hc' Ha'].
      { by rewrite Hs, <- app_assoc. }
      split; [|done]. rewrite Hc', Hch, <- app_assoc. cbn.
      by rewrite Hem. }
    unfold emitted in Hrec.
    destruct (errorMarker ev) as [c|] eqn:Hmark.
    { injection Hrun as <- <-. cbn in *.
      apply app_inv_head in Hseen. subst new. cbn.
      unfold emitted. rewrite Hmark. cbn. apply Hone. }
    destruct (forwarded ev) as [t|] eqn:Hfw.
    { eapply (Hrec _ [t]); last exact Hrun; try done; apply Hone. }
    destruct (ev_final ev).
    { injection Hrun as <- <-. cbn in *.
      apply app_inv_head in Hseen. subst new. cbn.
      unfold emitted. rewrite Hmark, Hfw. cbn. by rewrite app_nil_r. }
    eapply (Hrec _ []); last exact Hrun; try done.
    cbn. by rewrite app_nil_r.
Qed.

(** The loop over two generators in a row. *)
Lemma eventLoop_app gen : forall (more : Generator St R) r,
  eventLoop (gen ++ more) r
  = match eventLoop gen r with
    | (r', Js.Ok LoopExhausted) => eventLoop more r'
    | stopped => stopped
    end.
Proof.
  induction gen as [|step gen IH]; intros more r; [done|].
  cbn [app]. rewrite !eventLoop_cons.
  destruct (step (run_world r)) as [w1 [ev|e]]; [|done]. cbn zeta.
  destruct (errorMarker ev); [done|].
  destruct (forwarded ev); [apply IH|].
  destruct (ev_final ev); [done | apply IH].
Qed.

(** The loop against what arrives: it takes every event, in order, up to
    and including the first that stops it, and leaves as [exitOf] tells. *)
Lemma eventLoop_taken gen : forall r,
  run_seen (eventLoop gen r).1
  = run_seen r ++ upToStop (arrivals gen (run_world r))
  /\ run_eventCount (eventLoop gen r).1
     = run_eventCount r + length (upToStop (arrivals gen (run_world r)))
  /\ (eventLoop gen r).2 = exitOf gen (run_world r).
Proof.
  induction gen as [|step gen IH]; intros r.
  - cbn. rewrite app_nil_r. split_and!; [done | lia | done].
  - rewrite eventLoop_cons. unfold exitOf, stopOf. cbn [arrivals failure].
    destruct (step (run_world r)) as [w1 [ev|e]].
    2:{ cbn. rewrite app_nil_r. split_and!; [done | lia | done]. }
    cbn zeta. cbn [upToStop List.find]. unfold goesOn, errorMarker.
    destruct (hasErrorCode ev) as [code|]; cbn [negb].
    { cbn. split_and!; [done | lia | done]. }
    destruct (forwarded ev) as [t|]; cbn [negb].
    { destruct (IH (mkRun w1 (write (awaitPoint (run_stream r)) t)
                          (S (run_eventCount r)) (run_seen r ++ [ev])))
        as (Hs & Hn & Hres).
      cbn [run_world run_seen run_eventCount] in *.
      rewrite Hs, Hn, Hres, <- app_assoc. cbn. split_and!; [done | lia | done]. }
    destruct (ev_final ev); cbn [negb].
    { cbn. split_and!; [done | lia | done]. }
    destruct (IH (mkRun w1 (awaitPoint (run_stream r))
                        (S (run_eventCount r)) (run_seen r ++ [ev])))
      as (Hs & Hn & Hres).
    cbn [run_world run_seen run_eventCount] in *.
    rewrite Hs, Hn, Hres, <- app_assoc. cbn. split_and!; [done | lia | done].
Qed.

End Loop.

(** ** Aborted streams *)

Lemma chunks_awaitPoint s : chunks (awaitPoint s) = chunks s.
Proof. unfold awaitPoint. by destruct (abortIn s) as [[|n]|]. Qed.

Lemma aborted_awaitPoint s :
  aborted (awaitPoint s) = false -> aborted s = false.
Proof. unfold awaitPoint. by destruct (abortIn s) as [[|n]|]. Qed.

Lemma behind_awaitPoint s s0 :
  behind s s0 -> behind (awaitPoint s) (awaitPoint s0).
Proof.
  intros (Hatt & Hpre & Heq). rewrite (awaitPoint_attended s0 Hatt).
  split_and!; [done | by rewrite chunks_awaitPoint |].
  intros Hab. rewrite chunks_awaitPoint. by apply Heq, aborted_awaitPoint.
Qed.

Lemma chunks_write_live s c :
  aborted s = false -> chunks (write s c) = chunks s ++ [c].
Proof. intros Hab. unfold write. rewrite Hab. by rewrite chunks_awaitPoint. Qed.

Lemma behind_write s s0 c : behind s s0 -> behind (write s c) (write s0 c).
Proof.
  intros (Hatt & Hpre & Heq).
  destruct (write_attended s0 c Hatt) as [Hc0 Hatt0].
  split; [done|]. rewrite Hc0.
  destruct (aborted s) eqn:Hab.
  - destruct (write_aborted s c Hab) as [Hab' ->].
    split; [by apply prefix_app_r | congruence].
  - rewrite (chunks_write_live s c Hab), (Heq eq_refl). done.
Qed.

Section Abort.

Context {St : Type} `{!SessionService St} {R : Type}.
Implicit Types (gen : Generator St R) (w : World St R).

(** The loop never looks at the stream: with a client that aborts it
    takes the same events, with the same effects, as with one that
    stays, and delivers an initial stretch of the same chunks. *)
Lemma eventLoop_behind gen : forall w n seen s s0,
  behind s s0 ->
  let '(r, res) := eventLoop gen (mkRun w s n seen) in
  let '(r0, res0) := eventLoop gen (mkRun w s0 n seen) in
  run_world r = run_world r0
  /\ run_eventCount r = run_eventCount r0
  /\ run_seen r = run_seen r0
  /\ res = res0
  /\ behind (run_stream r) (run_stream r0).
Proof.
  induction gen as [|step gen IH]; intros w n seen s s0 Hb; [done|].
  rewrite !eventLoop_cons; cbn [run_world run_stream run_eventCount run_seen].
  pose proof (behind_awaitPoint _ _ Hb) as Hb1.
  destruct (step w) as [w1 [ev|e]]; [|done]. cbn zeta.
  destruct (errorMarker ev) as [c|].
  { split_and!; try done. by apply behind_write. }
  destruct (forwarded ev) as [t|].
  { apply IH. by apply behind_write. }
  destruct (ev_final ev); [done|]. by apply IH.
Qed.

(** Once the stream is aborted nothing more is delivered. *)
Lemma eventLoop_aborted gen : forall (r : Run St R),
  aborted (run_stream r) = true ->
  aborted (run_stream (eventLoop gen r).1) = true
  /\ chunks (run_stream (eventLoop gen r).1) = chunks (run_stream r).
Proof.
  induction gen as [|step gen IH]; intros r Hab; [done|].
  rewrite eventLoop_cons.
  destruct (awaitPoint_aborted _ Hab) as [Hab1 Hch1].
  destruct (step (run_world r)) as [w1 [ev|e]]; [|done]. cbn zeta.
  destruct (errorMarker ev) as [c|].
  { cbn. destruct (write_aborted _ c Hab1) as [-> ->]. done. }
  destruct (forwarded ev) as [t|].
  { destruct (write_aborted _ t Hab1) as [Hab2 Hch2].
    destruct (IH (mkRun w1 (write (awaitPoint (run_stream r)) t)
                        (S (run_eventCount r)) (run_seen r ++ [ev])) Hab2)
      as [-> ->]. cbn. by rewrite Hch2. }
  destruct (ev_final ev); [done|].
  destruct (IH (mkRun w1 (awaitPoint (run_stream r))
                      (S (run_eventCount r)) (run_seen r ++ [ev])) Hab1)
    as [-> ->]. done.
Qed.

Variable createUserContent : Js.value -> Js.result Content.
Variable runAsync : string -> string -> Content -> Generator St R.

Lemma streamCallback_behind mockMode m u i w s s0 :
  behind s s0 ->
  let '(r, settled) :=
    streamCallback createUserContent runAsync mockMode m u i w s in
  let '(r0, settled0) :=
    streamCallback createUserContent runAsync mockMode m u i w s0 in
  run_world r = run_world r0
  /\ run_eventCount r = run_eventCount r0
  /\ run_seen r = run_seen r0
  /\ settled = settled0
  /\ behind (run_stream r) (run_stream r0).
Proof.
  intros Hb. unfold streamCallback, streamBody.
  destruct mockMode.
  { cbn. split_and!; try done.
    unfold sleep. by repeat (apply behind_write || apply behind_awaitPoint). }
  destruct (createUserContent m) as [content|e]; cbn.
  2:{ split_and!; try done. by apply behind_write. }
  pose proof (eventLoop_behind (runAsync u i content) w 0 [] s s0 Hb) as H.
  destruct (eventLoop _ (mkRun w s 0 [])) as [r res].
  destruct (eventLoop _ (mkRun w s0 0 [])) as [r0 res0].
  destruct H as (Hw & Hn & Hs & -> & Hb').
  destruct res0 as [x|e]; cbn; [done|].
  split_and!; try done. by apply behind_write.
Qed.

End Abort.

(** ** How a stream ends *)

Lemma goesOn_forwarded ev t : forwarded ev = Some t -> goesOn ev = true.
Proof.
  unfold goesOn, forwarded. destruct (hasErrorCode ev); [done|].
  by destruct (firstText ev) as [[|a s]|].
Qed.

Lemma goesOn_stops ev :
  goesOn ev = false ->
  forwarded ev = None /\ emitted ev = option_list (errorMarker ev).
Proof.
  intros Hg. destruct (forwarded ev) as [t|] eqn:Hf.
  { by rewrite (goesOn_forwarded _ _ Hf) in Hg. }
  split; [done|]. unfold emitted. rewrite Hf. by destruct (errorMarker ev).
Qed.

Lemma goesOn_emitted ev :
  goesOn ev = true -> emitted ev = option_list (forwarded ev).
Proof.
  unfold goesOn, emitted, errorMarker, forwarded.
  destruct (hasErrorCode ev); [done|]. by destruct (firstText ev) as [[|a s]|].
Qed.

(** What the loop writes for the events it takes: their texts, and then
    the error chunk of the event that stopped it, if that carries one. *)
Lemma flat_map_emitted_upToStop (evs : list Event) :
  flat_map emitted (upToStop evs)
  = omap forwarded (upToStop evs)
    ++ match stopOf evs with
       | Some stop => option_list (errorMarker stop)
       | None => []
       end.
Proof.
  induction evs as [|ev evs IH]; [done|].
  unfold stopOf in *. cbn [upToStop List.find].
  destruct (goesOn ev) eqn:Hg; cbn [negb].
  - cbn [flat_map]. rewrite IH, (goesOn_emitted _ Hg).
    assert (Hcons : forall l, omap forwarded (ev :: l)
                              = option_list (forwarded ev) ++ omap forwarded l)
      by (intros l; cbn; by destruct (forwarded ev)).
    by rewrite Hcons, <- app_assoc.
  - destruct (goesOn_stops _ Hg) as [Hf Hem]. cbn [flat_map].
    rewrite Hem, app_nil_r. cbn. by rewrite Hf.
Qed.

(** Of the events taken only the last can be one that stops the loop. *)
Lemma upToStop_stop_last (evs : list Event) : forall pre ev post,
  upToStop evs = pre ++ ev :: post ->
  goesOn ev = false ->
  post = [] /\ stopOf evs = Some ev.
Proof.
  induction evs as [|e evs IH]; intros pre ev post Heq Hg.
  - by destruct pre.
  - unfold stopOf in *. cbn [upToStop List.find] in *.
    destruct (goesOn e) eqn:He; cbn [negb].
    + destruct pre as [|p pre]; cbn in Heq; injection Heq as -> Heq.
      * congruence.
      * by apply (IH pre).
    + destruct pre as [|p pre]; cbn in Heq; injection Heq as -> Heq.
      * by subst post.
      * by destruct pre.
Qed.

Lemma hasErrorCode_stops ev code : hasErrorCode ev = Some code -> goesOn ev = false.
Proof. unfold goesOn. by intros ->. Qed.

(** C4 (amended): the stream callback always settles normally, whatever
    the content constructor and the runner do.  For a client that stays it
    delivers, in mock mode, the three fixed chunks; when the message is
    rejected, the one chunk [\n[Error: <message>]]; and otherwise the
    texts of the events taken, in order, which are the events that arrive
    up to and including the first that stops the loop, followed by what
    closes the turn: exactly one chunk [\n[ADK ERROR <code>] <message>\n]
    when the event that stopped the loop carries an error code, exactly one
    chunk [\n[Error: <message>]] when no event stopped it and the runner
    threw, and nothing when the loop ended by a final event or at the
    generator's end.  An event with an error code that is taken is the
    last one taken. *)
Theorem stream_ends_clean_or_with_one_marker :
  forall (St : Type) (svc : SessionService St) (R : Type)
         (createUserContent : Js.value -> Js.result Content)
         (runAsync : string -> string -> Content -> Generator St R)
         (mockMode : bool) (message : Js.value) (userId sessionId : string)
         (w : World St R),
    let '(r, settled) :=
      streamCallback createUserContent runAsync mockMode message
                     userId sessionId w (openStream None) in
    settled = Js.Ok tt
    /\ (if mockMode
        then chunks (run_stream r) = [mockChunk1; mockChunk2; mockChunk3]
        else
          match createUserContent message with
          | Js.Throw err =>
              run_seen r = []
              /\ chunks (run_stream r) = [thrownChunk (Js.message err)]
          | Js.Ok content =>
              let gen := runAsync userId sessionId content in
              let evs := arrivals gen w in
              run_seen r = upToStop evs
              /\ chunks (run_stream r)
                 = omap forwarded (upToStop evs) ++ closing gen w
              /\ closing gen w
                 = match stopOf evs with
                   | Some stop =>
                       match hasErrorCode stop with
                       | Some code =>
                           [adkErrorChunk code
                              (Js.orElse (ev_errorMessage stop)
                                         "Unknown ADK error")]
                       | None => []
                       end
                   | None =>
                       match failure gen w with
                       | Some err => [thrownChunk (Js.message err)]
                       | None => []
                       end
                   end
              /\ (forall pre ev post code,
                     upToStop evs = pre ++ ev :: post ->
                     hasErrorCode ev = Some code ->
                     post = [] /\ stopOf evs = Some ev)
          end).
Proof.
  intros St svc R cuc run mockMode m u i w.
  unfold streamCallback, streamBody. destruct mockMode; [done|].
  destruct (cuc m) as [content|e]; [|done].
  set (gen := run u i content).
  set (r0 := mkRun w (openStream None) 0 []).
  destruct (eventLoop_taken gen r0) as (Hseen & _ & Hres).
  destruct (eventLoop gen r0) as [r1 res] eqn:Hrun.
  cbn [fst snd run_world run_seen r0 app] in Hseen, Hres.
  destruct (eventLoop_chunks gen r0 r1 res (upToStop (arrivals gen w)) Hrun)
    as [Hch Hatt]; [done | done |].
  cbn [r0 run_stream chunks openStream app] in Hch.
  rewrite flat_map_emitted_upToStop in Hch.
  assert (Hclosing :
            closing gen w
            = match stopOf (arrivals gen w) with
              | Some stop =>
                  match hasErrorCode stop with
                  | Some code =>
                      [adkErrorChunk code
                         (Js.orElse (ev_errorMessage stop) "Unknown ADK error")]
                  | None => []
                  end
              | None =>
                  match failure gen w with
                  | Some err => [thrownChunk (Js.message err)]
                  | None => []
                  end
              end).
  { unfold closing, errorMarker.
    destruct (stopOf (arrivals gen w)) as [stop|]; [|done].
    by destruct (hasErrorCode stop). }
  assert (Hlast : forall pre ev post code,
             upToStop (arrivals gen w) = pre ++ ev :: post ->
             hasErrorCode ev = Some code ->
             post = [] /\ stopOf (arrivals gen w) = Some ev).
  { intros pre ev post code Heq Hcode.
    eapply upToStop_stop_last; [exact Heq | by eapply hasErrorCode_stops]. }
  unfold exitOf in Hres. unfold closing.
  destruct (stopOf (arrivals gen w)) as [stop|] eqn:Hstop.
  { subst res. cbn. split_and!; try done.
    unfold errorMarker. by destruct (hasErrorCode stop). }
  rewrite app_nil_r in Hch.
  destruct (failure gen w) as [err|] eqn:Hfail; subst res; cbn.
  - destruct (write_attended _ (thrownChunk (Js.message err)) Hatt) as [-> _].
    rewrite Hch. split_and!; try done.
  - rewrite app_nil_r. split_and!; try done.
Qed.

(** C4, as stated, fails: for an error event with code [429] the stream
    ends with the chunk [\n[ADK ERROR 429] quota exceeded\n], and for an
    exception of the runner with [\n[Error: socket closed]]; neither
    stream holds a chunk of the form [[ERROR <code>] <message>]. *)
Lemma error_chunk_form_counterexample :
  let run1 := scriptedRunner [textEvent "Working"; errorEvent "429" "quota exceeded"] in
  let run2 : string -> string -> Content -> Generator InMemory.Store unit :=
    fun _ _ _ => [fun w => (w, Raise (Js.Error "Error" "socket closed"))] in
  let out1 :=
    chunks (run_stream
              (streamCallback stringContent run1 false (Js.Str "hi") "u" "s"
                              (emptyWorld tt) (openStream None)).1) in
  let out2 :=
    chunks (run_stream
              (streamCallback stringContent run2 false (Js.Str "hi") "u" "s"
                              (emptyWorld tt) (openStream None)).1) in
  out1 = ["Working"; Js.nl +:+ "[ADK ERROR 429] quota exceeded" +:+ Js.nl]
  /\ out2 = [Js.nl +:+ "[Error: socket closed]"]
  /\ ~ (exists code msg,
           ("[ERROR " +:+ code +:+ "] " +:+ msg) ∈ out1 ++ out2).
Proof.
  cbv zeta. split_and!; [reflexivity | reflexivity |].
  intros (code & msg & Hin). vm_compute in Hin.
  repeat (apply elem_of_cons in Hin as [Hin|Hin]; [discriminate Hin|]).
  by apply elem_of_nil in Hin.
Qed.

(** C6 (amended): an abort stops the delivery of chunks and nothing else.
    Whenever the client aborts, the callback takes the same events from the
    runner, leaves the same process state and settles the same way as for a
    client that stays, and the chunks it has delivered are an initial
    stretch of the chunks that client gets; and once the stream is aborted
    the event loop delivers nothing more. *)
Theorem abort_stops_delivery_only :
  forall (St : Type) (svc : SessionService St) (R : Type)
         (createUserContent : Js.value -> Js.result Content)
         (runAsync : string -> string -> Content -> Generator St R)
         (mockMode : bool) (message : Js.value) (userId sessionId : string)
         (w : World St R) (abortAt : option nat)
         (gen : Generator St R) (delivered : list string)
         (pending : option nat) (logged n : nat) (seen : list Event),
    (let '(r, settled) :=
       streamCallback createUserContent runAsync mockMode message
                      userId sessionId w (openStream abortAt) in
     let '(r0, settled0) :=
       streamCallback createUserContent runAsync mockMode message
                      userId sessionId w (openStream None) in
     run_world r = run_world r0
     /\ run_eventCount r = run_eventCount r0
     /\ run_seen r = run_seen r0
     /\ settled = settled0
     /\ chunks (run_stream r) `prefix_of` chunks (run_stream r0))
    /\ chunks (run_stream
                 (eventLoop gen (mkRun w (mkStream delivered true pending logged)
                                       n seen)).1)
       = delivered.
Proof.
  intros St svc R cuc run mockMode m u i w abortAt gen delivered pending
         logged n seen.
  split.
  - assert (Hb : behind (openStream abortAt) (openStream None))
      by (split_and!; done).
    pose proof (streamCallback_behind cuc run mockMode m u i w _ _ Hb) as H.
    destruct (streamCallback _ _ _ _ _ _ _ (openStream abortAt)) as [r settled].
    destruct (streamCallback _ _ _ _ _ _ _ (openStream None)) as [r0 settled0].
    destruct H as (? & ? & ? & ? & _ & ? & _). done.
  - by destruct (eventLoop_aborted gen
                   (mkRun w (mkStream delivered true pending logged) n seen)
                   eq_refl) as [_ ->].
Qed.

(** C6, as stated, fails: the client aborts right after the first chunk
    has been written; it receives no further chunk, but the loop goes on to
    take the two remaining events, the final one included, and the runner
    records all three in the session's history. *)
Lemma abort_counterexample :
  let T := (appName, "u", "s") in
  let evs := [textEvent "a"; textEvent "b"; finalEvent] in
  let w : World InMemory.Store unit :=
    mkWorld {[T := mkSession "s" "u" ∅ []]} [] tt in
  let r := (streamCallback stringContent (recordingRunner evs) false
                           (Js.Str "hi") "u" "s" w (openStream (Some 1))).1 in
  chunks (run_stream r) = ["a"]
  /\ aborted (run_stream r) = true
  /\ run_eventCount r = 3
  /\ run_seen r = evs
  /\ store (run_world r) !! T = Some (mkSession "s" "u" ∅ evs).
Proof. cbv zeta. split_and!; vm_compute; reflexivity. Qed.

(** ** Interleaved resolutions *)

Section Interleaving.

Context {R : Type}.
Implicit Types (w : World InMemory.Store R) (ps : list Pending).

(** Run alone, the two steps of a request are the handler's session
    resolution. *)
Lemma resolveStep_twice w u i :
  (let '(w1, p1) := resolveStep w (AwaitGet u i) in resolveStep w1 p1)
  = (let '(w', res) := resolveSession false w u i in (w', Settled res)).
Proof.
  unfold resolveSession, resolveStep; cbn.
  by destruct (InMemory.get (store w) (appName, u, i)).
Qed.

End Interleaving.


(** ** Tool calls within a turn *)

Section Tools.

Import ToolRegistry.

Implicit Types (reg : Registry) (T : Triple) (w : DWorld) (s : Session)
         (r : Run InMemory.Store Driver)
         (gen : Generator InMemory.Store Driver).

Lemma append_empty_r (a : string) : a +:+ EmptyString = a.
Proof.
  induction a as [|c a IH]; [done|].
  change (String c (a +:+ EmptyString) = String c a). by rewrite IH.
Qed.

(** The event that reports a tool's outcome is neither text nor an error
    marker nor final: the loop takes it and goes on. *)
Lemma outcomeEvent_passes name o :
  errorMarker (outcomeEvent name o) = None
  /\ forwarded (outcomeEvent name o) = None
  /\ ev_final (outcomeEvent name o) = false.
Proof. by destruct o. Qed.

(** The driver's step for a tool call on a resolved session. *)
Lemma driverStep_call reg T name args w s :
  store w !! T = Some s ->
  driverStep reg T (TToolCall name args) w
  = (let i := invoke reg name args (sess_state s) in
     (mkWorld
        (<[T := mkSession (sess_id s) (sess_userId s) (inv_state i)
                          (sess_events s)]> (store w))
        (calls w)
        (mkDriver (drv_invoked (runner w) ++ [(name, args)])
                  (if inv_executed i
                   then drv_executed (runner w) ++ [(name, args)]
                   else drv_executed (runner w))
                  (drv_context (runner w) ++ [inv_outcome i])
                  (drv_content (runner w))),
      Yield (outcomeEvent name (inv_outcome i)))).
Proof. intros Hs. unfold driverStep. by rewrite Hs. Qed.

(** After a tool call, whatever its outcome, the loop goes on with the
    rest of the turn. *)
Lemma eventLoop_call reg T name args gen r s :
  store (run_world r) !! T = Some s ->
  eventLoop (driverStep reg T (TToolCall name args) :: gen) r
  = eventLoop gen
      (mkRun (driverStep reg T (TToolCall name args) (run_world r)).1
             (awaitPoint (run_stream r))
             (S (run_eventCount r))
             (run_seen r
              ++ [outcomeEvent name
                    (inv_outcome (invoke reg name args (sess_state s)))])).
Proof.
  intros Hs. rewrite eventLoop_cons, (driverStep_call _ _ _ _ _ _ Hs).
  cbn zeta. cbn [fst].
  destruct (outcomeEvent_passes name
              (inv_outcome (invoke reg name args (sess_state s))))
    as (-> & -> & ->).
  done.
Qed.



Lemma invoke_schema_violation reg name args d st :
  lookup reg name = Some d ->
  tool_schema d args = false ->
  invoke reg name args st
  = mkInvocation (ToolError SchemaValidationError) st false.
Proof. intros Hd Hs. unfold invoke. by rewrite Hd, Hs. Qed.

Lemma invoke_execution_failure reg name args d st :
  lookup reg name = Some d ->
  tool_schema d args = true ->
  tool_execute d args st = None ->
  invoke reg name args st
  = mkInvocation (ToolError ExecutionFailure) st true.
Proof. intros Hd Hs He. unfold invoke. by rewrite Hd, Hs, He. Qed.


End Tools.

(** C8: on a resolved session, every tool call whose arguments violate the
    tool's schema leaves the tool's function unrun: the invocation is a
    [SchemaValidationError], the session state is as before and the call is
    not among the executed ones; the driver appends the error to the
    turn's context and reports it as an event (a function response
    carrying the error), not as an exception, and the server's loop takes
    the event and goes on with the rest of the turn.  Separately, every
    tool call whose function fails is reported the same way, as an
    [ExecutionFailure], and the loop goes on.  And whatever a tool call
    does, the driver's step yields an event and the loop goes on. *)
Theorem tool_errors_do_not_abort_the_turn :
  forall (reg : ToolRegistry.Registry) (T : Triple) (s : Session)
         (r : Run InMemory.Store ToolRegistry.Driver)
         (rest : Generator InMemory.Store ToolRegistry.Driver),
    store (run_world r) !! T = Some s ->
    (forall (name : string) (args : Js.value) (d : ToolRegistry.ToolDefinition),
        ToolRegistry.lookup reg name = Some d ->
        ToolRegistry.tool_schema d args = false ->
        let bad := ToolRegistry.TToolCall name args in
        let w1 := (ToolRegistry.driverStep reg T bad (run_world r)).1 in
        let e1 := ToolRegistry.outcomeEvent name
                    (ToolRegistry.ToolError ToolRegistry.SchemaValidationError) in
        ToolRegistry.invoke reg name args (sess_state s)
        = ToolRegistry.mkInvocation
            (ToolRegistry.ToolError ToolRegistry.SchemaValidationError)
            (sess_state s) false
        /\ ToolRegistry.driverStep reg T bad (run_world r) = (w1, Yield e1)
        /\ ToolRegistry.drv_executed (runner w1)
           = ToolRegistry.drv_executed (runner (run_world r))
        /\ ToolRegistry.drv_context (runner w1)
           = ToolRegistry.drv_context (runner (run_world r))
             ++ [ToolRegistry.ToolError ToolRegistry.SchemaValidationError]
        /\ store w1 !! T = Some s
        /\ eventLoop (ToolRegistry.driverStep reg T bad :: rest) r
           = eventLoop rest (mkRun w1 (awaitPoint (run_stream r))
                                   (S (run_eventCount r)) (run_seen r ++ [e1])))
    /\ (forall (name : string) (args : Js.value)
               (d : ToolRegistry.ToolDefinition),
           ToolRegistry.lookup reg name = Some d ->
           ToolRegistry.tool_schema d args = true ->
           ToolRegistry.tool_execute d args (sess_state s) = None ->
           let failing := ToolRegistry.TToolCall name args in
           let w2 := (ToolRegistry.driverStep reg T failing (run_world r)).1 in
           let e2 := ToolRegistry.outcomeEvent name
                       (ToolRegistry.ToolError ToolRegistry.ExecutionFailure) in
           ToolRegistry.driverStep reg T failing (run_world r) = (w2, Yield e2)
           /\ ToolRegistry.drv_context (runner w2)
              = ToolRegistry.drv_context (runner (run_world r))
                ++ [ToolRegistry.ToolError ToolRegistry.ExecutionFailure]
           /\ store w2 !! T = Some s
           /\ eventLoop (ToolRegistry.driverStep reg T failing :: rest) r
              = eventLoop rest (mkRun w2 (awaitPoint (run_stream r))
                                      (S (run_eventCount r))
                                      (run_seen r ++ [e2])))
    /\ (forall (name : string) (args : Js.value),
           let call := ToolRegistry.TToolCall name args in
           let o := ToolRegistry.inv_outcome
                      (ToolRegistry.invoke reg name args (sess_state s)) in
           (ToolRegistry.driverStep reg T call (run_world r)).2
           = Yield (ToolRegistry.outcomeEvent name o)
           /\ eventLoop (ToolRegistry.driverStep reg T call :: rest) r
              = eventLoop rest
                  (mkRun (ToolRegistry.driverStep reg T call (run_world r)).1
                         (awaitPoint (run_stream r))
                         (S (run_eventCount r))
                         (run_seen r ++ [ToolRegistry.outcomeEvent name o]))).
Proof.
  intros reg T s r rest Hs. split_and!.
  - intros name args d Hd Hbad bad w1 e1.
    pose proof (invoke_schema_violation reg name args d (sess_state s)
                                        Hd Hbad) as Hi.
    pose proof (eventLoop_call reg T name args rest r s Hs) as Hl.
    rewrite Hi in Hl. subst w1 e1 bad.
    rewrite !(driverStep_call _ _ _ _ _ _ Hs) in *.
    rewrite Hi in *. cbn in *. destruct s.
    split_and!; try done; cbn; by rewrite lookup_insert_eq.
  - intros name args d Hd Hok Hfail failing w2 e2.
    pose proof (invoke_execution_failure reg name args d (sess_state s)
                                         Hd Hok Hfail) as Hi.
    pose proof (eventLoop_call reg T name args rest r s Hs) as Hl.
    rewrite Hi in Hl. subst w2 e2 failing.
    rewrite !(driverStep_call _ _ _ _ _ _ Hs) in *.
    rewrite Hi in *. cbn in *. destruct s.
    split_and!; try done; cbn; by rewrite lookup_insert_eq.
  - intros name args call o. subst call o. split.
    + by rewrite (driverStep_call _ _ _ _ _ _ Hs).
    + apply (eventLoop_call reg T name args rest r s Hs).
Qed.

Lemma tool_errors_do_not_abort_the_turn_witness :
  let T := (appName, "alice", "s1") in
  let s := mkSession "s1" "alice" ∅ [] in
  let r : Run InMemory.Store ToolRegistry.Driver :=
    mkRun (mkWorld {[T := s]} [] ToolRegistry.newDriver)
          (openStream None) 0 [] in
  let rest := ToolRegistry.driveTurn financeTools T
                [ToolRegistry.TText "No goals yet."; ToolRegistry.TFinal] in
  let bad := ToolRegistry.TToolCall "set_budget_goal" (Js.Num 100) in
  let failing := ToolRegistry.TToolCall "calculate_budget_status" Js.Null in
  let e1 := ToolRegistry.outcomeEvent "set_budget_goal"
              (ToolRegistry.ToolError ToolRegistry.SchemaValidationError) in
  let e2 := ToolRegistry.outcomeEvent "calculate_budget_status"
              (ToolRegistry.ToolError ToolRegistry.ExecutionFailure) in
  (ToolRegistry.invoke [setBudgetGoal] "set_budget_goal" (Js.Num 100)
                       (sess_state s)
   = ToolRegistry.mkInvocation
       (ToolRegistry.ToolError ToolRegistry.SchemaValidationError)
       (sess_state s) false
   /\ (ToolRegistry.driverStep [setBudgetGoal] T bad (run_world r)).2
      = Yield e1
   /\ eventLoop (ToolRegistry.driverStep [setBudgetGoal] T bad :: rest) r
      = eventLoop rest
          (mkRun (ToolRegistry.driverStep [setBudgetGoal] T bad (run_world r)).1
                 (awaitPoint (run_stream r))
                 (S (run_eventCount r)) (run_seen r ++ [e1])))
  /\ ((ToolRegistry.driverStep financeTools T failing (run_world r)).2
      = Yield e2
      /\ store (ToolRegistry.driverStep financeTools T failing (run_world r)).1
           !! T = Some s
      /\ eventLoop (ToolRegistry.driverStep financeTools T failing :: rest) r
         = eventLoop rest
             (mkRun (ToolRegistry.driverStep financeTools T failing
                                             (run_world r)).1
                    (awaitPoint (run_stream r))
                    (S (run_eventCount r)) (run_seen r ++ [e2]))).
Proof.
  cbv zeta.
  assert (Hs : store (St := InMemory.Store)
                 (mkWorld {[(appName, "alice", "s1")
                            := mkSession "s1" "alice" ∅ []]} []
                          ToolRegistry.newDriver)
               !! (appName, "alice", "s1")
               = Some (mkSession "s1" "alice" ∅ [])) by reflexivity.
  split.
  - destruct (tool_errors_do_not_abort_the_turn
                [setBudgetGoal] (appName, "alice", "s1")
                (mkSession "s1" "alice" ∅ [])
                (mkRun (mkWorld {[(appName, "alice", "s1")
                                  := mkSession "s1" "alice" ∅ []]} []
                                ToolRegistry.newDriver)
                       (openStream None) 0 [])
                (ToolRegistry.driveTurn financeTools (appName, "alice", "s1")
                   [ToolRegistry.TText "No goals yet."; ToolRegistry.TFinal])
                Hs) as (Hschema & _ & _).
    destruct (Hschema "set_budget_goal" (Js.Num 100) setBudgetGoal
                      eq_refl eq_refl) as (Hi & Hstep & _ & _ & _ & Hloop).
    split_and!; [exact Hi | by rewrite Hstep | exact Hloop].
  - destruct (tool_errors_do_not_abort_the_turn
                financeTools (appName, "alice", "s1")
                (mkSession "s1" "alice" ∅ [])
                (mkRun (mkWorld {[(appName, "alice", "s1")
                                  := mkSession "s1" "alice" ∅ []]} []
                                ToolRegistry.newDriver)
                       (openStream None) 0 [])
                (ToolRegistry.driveTurn financeTools (appName, "alice", "s1")
                   [ToolRegistry.TText "No goals yet."; ToolRegistry.TFinal])
                Hs) as (_ & Hfails & _).
    destruct (Hfails "calculate_budget_status" Js.Null calculateBudgetStatus
                     eq_refl eq_refl eq_refl) as (Hstep & _ & Hstore & Hloop).
    split_and!; [by rewrite Hstep | exact Hstore | exact Hloop].
Defined.

(** ** The ceiling of the tool loop *)

Section Ceiling.

Import ToolRegistry.

Variables (cap : nat) (reg : Registry) (T : Triple).
Variable next : list Outcome -> string * Js.value.

Implicit Types (r : Run InMemory.Store Driver) (s : Session).

(** Below the ceiling a round with a model that always calls a tool is
    the driver's step for the call. *)
Lemma eventLoop_round_below gen r s :
  store (run_world r) !! T = Some s ->
  length (drv_invoked (runner (run_world r))) < cap ->
  let name := (next (drv_context (runner (run_world r)))).1 in
  let args := (next (drv_context (runner (run_world r)))).2 in
  eventLoop (modelStep cap reg T (alwaysCalls next) :: gen) r
  = eventLoop gen
      (mkRun (driverStep reg T (TToolCall name args) (run_world r)).1
             (awaitPoint (run_stream r))
             (S (run_eventCount r))
             (run_seen r
              ++ [outcomeEvent name
                    (inv_outcome (invoke reg name args (sess_state s)))])).
Proof.
  intros Hs Hlt name args.
  rewrite <- (eventLoop_call reg T name args gen r s Hs).
  rewrite !eventLoop_cons.
  assert (Hstep : modelStep cap reg T (alwaysCalls next) (run_world r)
                  = driverStep reg T (TToolCall name args) (run_world r)).
  { unfold modelStep, alwaysCalls, cappedStep.
    apply Nat.ltb_lt in Hlt. by rewrite Hlt. }
  by rewrite Hstep.
Qed.

(** At the ceiling the round fails the turn and changes nothing. *)
Lemma eventLoop_round_at gen r :
  cap <= length (drv_invoked (runner (run_world r))) ->
  eventLoop (modelStep cap reg T (alwaysCalls next) :: gen) r
  = (mkRun (run_world r) (awaitPoint (run_stream r)) (run_eventCount r)
           (run_seen r),
     Js.Throw toolLoopExceeded).
Proof.
  intros Hle. rewrite eventLoop_cons.
  assert (Hstep : modelStep cap reg T (alwaysCalls next) (run_world r)
                  = (run_world r, Raise toolLoopExceeded)).
  { unfold modelStep, alwaysCalls, cappedStep.
    apply Nat.ltb_ge in Hle. by rewrite Hle. }
  by rewrite Hstep.
Qed.

(** As many rounds as the ceiling leaves room for: each dispatches one
    call; nothing is written, and the session's history is as it was. *)
Lemma eventLoop_rounds_below : forall rounds r s,
  store (run_world r) !! T = Some s ->
  attended (run_stream r) ->
  length (drv_invoked (runner (run_world r))) + rounds <= cap ->
  exists r1 s1,
    eventLoop (modelTurn cap reg T (alwaysCalls next) rounds) r
    = (r1, Js.Ok LoopExhausted)
    /\ length (drv_invoked (runner (run_world r1)))
       = length (drv_invoked (runner (run_world r))) + rounds
    /\ store (run_world r1) !! T = Some s1
    /\ sess_events s1 = sess_events s
    /\ run_stream r1 = run_stream r
    /\ run_eventCount r1 = run_eventCount r + rounds.
Proof.
  induction rounds as [|n IH]; intros r s Hs Hatt Hle.
  - exists r, s. cbn. split_and!; try done; lia.
  - unfold modelTurn in *. cbn [replicate].
    rewrite (eventLoop_round_below _ r s Hs) by lia. cbn zeta.
    rewrite (driverStep_call _ _ _ _ _ _ Hs). cbn zeta. cbn [fst].
    rewrite (awaitPoint_attended _ Hatt).
    set (name := (next (drv_context (runner (run_world r)))).1).
    set (args := (next (drv_context (runner (run_world r)))).2).
    set (r' := mkRun _ _ _ _).
    destruct (IH r' (mkSession (sess_id s) (sess_userId s)
                       (inv_state (invoke reg name args (sess_state s)))
                       (sess_events s)))
      as (r1 & s1 & Hrun & Hinv & Hs1 & Hev & Hst & Hn).
    { by apply lookup_insert_eq. }
    { done. }
    { subst r'. cbn [run_world runner drv_invoked]. rewrite length_app.
      cbn. lia. }
    exists r1, s1. rewrite Hrun, Hinv, Hst, Hn, Hev.
    subst r'. cbn [run_world run_stream run_eventCount runner drv_invoked].
    rewrite length_app. cbn. split_and!; try done; lia.
Qed.

(** More rounds than the ceiling: the loop is left by the failure in
    round [cap + 1], in the state the first [cap] rounds made. *)
Lemma eventLoop_rounds_over more r s :
  store (run_world r) !! T = Some s ->
  attended (run_stream r) ->
  drv_invoked (runner (run_world r)) = [] ->
  exists r1,
    eventLoop (modelTurn cap reg T (alwaysCalls next) cap) r
    = (r1, Js.Ok LoopExhausted)
    /\ eventLoop (modelTurn cap reg T (alwaysCalls next) (cap + S more)) r
       = (r1, Js.Throw toolLoopExceeded).
Proof.
  intros Hs Hatt Hnil.
  destruct (eventLoop_rounds_below cap r s Hs Hatt)
    as (r1 & s1 & Hrun & Hinv & Hs1 & Hev & Hst & Hn).
  { rewrite Hnil. cbn. lia. }
  exists r1. split; [done|].
  unfold modelTurn in *. rewrite replicate_add, eventLoop_app, Hrun.
  cbn [replicate]. rewrite eventLoop_round_at by (rewrite Hinv; lia).
  rewrite awaitPoint_attended by (by rewrite Hst). by destruct r1.
Qed.

End Ceiling.

(** C7: a turn whose model always returns a tool call, run on a resolved
    session under the ceiling [cap], however many rounds the consumer is
    ready for.  The callback settles normally; the tool calls dispatched
    are as many as the rounds, up to [cap] and never more; the turn
    record is not appended to the session's history.  With no more rounds
    than [cap] nothing fails and no chunk is written.  With more, the turn
    fails with [ToolLoopExceeded] after exactly [cap] dispatches: the
    client gets the one error chunk, the loop has taken [cap] events, the
    outcome is that of [cap + 1] rounds whatever the number of rounds, and
    the process state is the one the [cap] dispatches left. *)
Theorem tool_loop_stops_at_the_ceiling :
  forall (cap : nat) (reg : ToolRegistry.Registry)
         (next : list ToolRegistry.Outcome -> string * Js.value)
         (rounds : nat) (msg userId sessionId : string)
         (m : InMemory.Store) (cs : list Call) (s : Session),
    let T := (appName, userId, sessionId) in
    let w0 := mkWorld (<[T := s]> m) cs ToolRegistry.newDriver in
    let outcome n :=
      streamCallback stringContent
                     (modelRunner cap reg (ToolRegistry.alwaysCalls next) n)
                     false (Js.Str msg) userId sessionId w0
                     (openStream None) in
    let '(r, settled) := outcome rounds in
    settled = Js.Ok tt
    /\ length (ToolRegistry.drv_invoked (runner (run_world r)))
       = Nat.min rounds cap
    /\ sess_events <$> store (run_world r) !! T = Some (sess_events s)
    /\ (rounds <= cap ->
        chunks (run_stream r) = [] /\ run_eventCount r = rounds)
    /\ (cap < rounds ->
        chunks (run_stream r)
        = [thrownChunk (Js.message ToolRegistry.toolLoopExceeded)]
        /\ run_eventCount r = cap
        /\ outcome rounds = outcome (S cap)
        /\ run_world r = run_world (outcome cap).1).
Proof.
  intros cap reg next rounds msg u i m cs s T w0 outcome.
  set (r0 := mkRun w0 (openStream None) 0 []).
  assert (Hs : store (run_world r0) !! T = Some s) by apply lookup_insert_eq.
  assert (Hatt : attended (run_stream r0)) by done.
  assert (Hout : forall n,
             outcome n
             = match eventLoop (ToolRegistry.modelTurn
                                  cap reg T (ToolRegistry.alwaysCalls next) n)
                               r0 with
               | (r', Js.Ok _) => (r', Js.Ok tt)
               | (r', Js.Throw e) =>
                   (mkRun (run_world r')
                          (write (run_stream r') (thrownChunk (Js.message e)))
                          (run_eventCount r') (run_seen r'), Js.Ok tt)
               end).
  { intros n. subst outcome. cbn beta.
    unfold streamCallback, streamBody, modelRunner. cbn [stringContent].
    fold T. fold w0. fold r0.
    by destruct (eventLoop _ r0) as [r' [x|e]]. }
  destruct (Nat.le_gt_cases rounds cap) as [Hle|Hgt].
  - destruct (eventLoop_rounds_below cap reg T next rounds r0 s Hs Hatt)
      as (r1 & s1 & Hrun & Hinv & Hs1 & Hev & Hst & Hn); [cbn; lia|].
    rewrite Hout, Hrun. cbn in Hinv, Hn.
    rewrite Hinv, Hs1, Hst, Hn. cbn. rewrite Hev.
    split_and!; try done; try lia.
  - destruct (eventLoop_rounds_over cap reg T next 0 r0 s Hs Hatt eq_refl)
      as (r1 & Hcap & Hnext).
    destruct (eventLoop_rounds_over cap reg T next (rounds - S cap) r0 s
                                    Hs Hatt eq_refl)
      as (r1' & Hcap' & Hover).
    rewrite Hcap in Hcap'. injection Hcap' as <-.
    replace (cap + S (rounds - S cap)) with rounds in Hover by lia.
    replace (cap + 1) with (S cap) in Hnext by lia.
    destruct (eventLoop_rounds_below cap reg T next cap r0 s Hs Hatt)
      as (r1' & s1 & Hrun & Hinv & Hs1 & Hev & Hst & Hn); [cbn; lia|].
    rewrite Hcap in Hrun. injection Hrun as <-.
    cbn in Hinv, Hn.
    rewrite !Hout, Hover, Hnext, Hcap.
    cbn [run_world run_stream run_eventCount fst].
    rewrite Hinv, Hs1, Hst, Hn. cbn. rewrite Hev.
    split_and!; try done; try lia.
Qed.

Lemma tool_loop_stops_at_the_ceiling_witness :
  let T := (appName, "alice", "s1") in
  let s := mkSession "s1" "alice" ∅ [textEvent "earlier"] in
  let w0 := mkWorld (<[T := s]> ∅) [] ToolRegistry.newDriver in
  let next : list ToolRegistry.Outcome -> string * Js.value :=
    fun _ => ("set_budget_goal", Js.Obj []) in
  let outcome n :=
    streamCallback stringContent
                   (modelRunner 3 financeTools
                                (ToolRegistry.alwaysCalls next) n)
                   false (Js.Str "go") "alice" "s1" w0 (openStream None) in
  3 < 8
  /\ chunks (run_stream (outcome 8).1)
     = [thrownChunk (Js.message ToolRegistry.toolLoopExceeded)]
  /\ run_eventCount (outcome 8).1 = 3
  /\ outcome 8 = outcome 4
  /\ run_world (outcome 8).1 = run_world (outcome 3).1.
Proof.
  cbv zeta. split; [lia|].
  pose proof (tool_loop_stops_at_the_ceiling
                3 financeTools (fun _ => ("set_budget_goal", Js.Obj []))
                8 "go" "alice" "s1" ∅ []
                (mkSession "s1" "alice" ∅ [textEvent "earlier"])) as H.
  cbv beta zeta in H.
  remember (streamCallback (St := InMemory.Store) stringContent
              (modelRunner 3 financeTools _ 8) false _ _ _ _ _)
    as o8 eqn:Ho8.
  destruct o8 as [r settled].
  destruct H as (_ & _ & _ & _ & Hover).
  destruct Hover as (Hch & Hn & Hsame & Hworld); [lia|].
  cbn [fst]. split_and!; [exact Hch | exact Hn | exact Hsame | exact Hworld].
Defined.

(** ** Order of text and tool calls *)




(** ** Requests that leave the ids out *)

Section SharedSession.

Context {R : Type}.
Implicit Types (w : World InMemory.Store R) (r : Run InMemory.Store R)
         (gen : Generator InMemory.Store R).

(** A live request with a truthy message, against the in-memory service:
    the session is resolved and the callback runs on the state the
    resolution left. *)
Lemma chat_live (cuc : Js.value -> Js.result Content)
      (run : string -> string -> Content -> Generator InMemory.Store R)
      (abortAt : option nat) w req m :
  req_message req = Some m ->
  Js.truthy m = true ->
  chat cuc run false abortAt w req
  = (let w' := (resolveSession false w (userIdOf req) (sessionIdOf req)).1 in
     let '(r, settled) :=
       streamCallback cuc run false m (userIdOf req) (sessionIdOf req) w'
                      (openStream abortAt) in
     (run_world r, RespStream (run_stream r) settled)).
Proof.
  intros Hm Ht. unfold chat. rewrite Hm, Ht. cbn [negb].
  by destruct (resolveSession_total w (userIdOf req) (sessionIdOf req))
    as (w1 & s & -> & _).
Qed.

(** The loop over segments that keep the call log and the stored sessions
    keeps them. *)
Lemma eventLoop_tame gen :
  Forall (fun step : GenStep InMemory.Store R =>
            forall w,
              calls (step w).1 = calls w
              /\ forall T, is_Some (store w !! T)
                           -> is_Some (store (step w).1 !! T)) gen ->
  forall r,
    calls (run_world (eventLoop gen r).1) = calls (run_world r)
    /\ forall T, is_Some (store (run_world r) !! T)
                 -> is_Some (store (run_world (eventLoop gen r).1) !! T).
Proof.
  induction 1 as [|step gen Hstep _ IH]; intros r; [done|].
  rewrite eventLoop_cons. specialize (Hstep (run_world r)).
  destruct (step (run_world r)) as [w1 [ev|e]]; cbn [fst] in Hstep;
    [|done].
  cbn zeta. destruct Hstep as [Hc Hs].
  assert (Hrec : forall s n seen,
             calls (run_world (eventLoop gen (mkRun w1 s n seen)).1)
             = calls (run_world r)
             /\ forall T, is_Some (store (run_world r) !! T)
                          -> is_Some (store (run_world
                                 (eventLoop gen (mkRun w1 s n seen)).1) !! T)).
  { intros s n seen. destruct (IH (mkRun w1 s n seen)) as [Hc' Hs'].
    cbn in Hc', Hs'. split; [congruence|]. intros T HT. by apply Hs', Hs. }
  destruct (errorMarker ev); [done|].
  destruct (forwarded ev); [apply Hrec|].
  destruct (ev_final ev); [done | apply Hrec].
Qed.

Lemma streamCallback_tame (cuc : Js.value -> Js.result Content)
      (run : string -> string -> Content -> Generator InMemory.Store R)
      m u i w s :
  tame run ->
  calls (run_world (streamCallback cuc run false m u i w s).1) = calls w
  /\ forall T, is_Some (store w !! T)
               -> is_Some (store (run_world
                                    (streamCallback cuc run false m u i w s).1)
                           !! T).
Proof.
  intros Htame. unfold streamCallback, streamBody.
  destruct (cuc m) as [c|e]; [|done].
  pose proof (eventLoop_tame _ (Htame u i c) (mkRun w s 0 [])) as H.
  by destruct (eventLoop _ _) as [r' [x|e]].
Qed.

Lemma recordingRunner_cons (u i : string) (content : Content)
      (ev : Event) (evs : list Event) :
  @recordingRunner R (ev :: evs) u i content
  = @cons (GenStep InMemory.Store R)
          (fun w => (setStore (alter (appendEvent ev) (appName, u, i)
                                     (store w)) w,
                     Yield ev))
          (recordingRunner evs u i content).
Proof. done. Qed.

(** The recording runner under the loop: the events the loop takes, and
    no others, are appended to the history of the session. *)
Lemma eventLoop_recording (u i : string) (content : Content)
      (evs : list Event) : forall r s,
  store (run_world r) !! (appName, u, i) = Some s ->
  store (run_world (eventLoop (recordingRunner evs u i content) r).1)
    !! (appName, u, i)
  = Some (appendEvents (upToStop evs) s)
  /\ exists n, (eventLoop (recordingRunner evs u i content) r).2 = Js.Ok n.
Proof.
  induction evs as [|ev evs IH]; intros r s Hs; [by eauto|].
  rewrite recordingRunner_cons, eventLoop_cons. cbn zeta.
  cbn [upToStop]. unfold goesOn, errorMarker.
  assert (Hs1 : forall w : World InMemory.Store R,
             store w = store (run_world r) ->
             store (setStore (alter (appendEvent ev) (appName, u, i)
                                    (store w)) w)
               !! (appName, u, i)
             = Some (appendEvent ev s)).
  { intros w Hw. cbn. by rewrite Hw, lookup_alter_eq, Hs. }
  specialize (Hs1 (run_world r) eq_refl).
  destruct (hasErrorCode ev); [by eauto|].
  destruct (forwarded ev); [by apply IH|].
  destruct (ev_final ev); [by eauto | by apply IH].
Qed.

Lemma replyRunner_tame (reply : Content -> list Event) :
  tame (@replyRunner R reply).
Proof.
  intros u i c. unfold replyRunner, recordingRunner.
  apply Forall_fmap, Forall_forall. intros ev _ w. cbn. split; [done|].
  intros T HT.
  destruct (decide ((appName, u, i) = T)) as [<-|Hne].
  - rewrite lookup_alter_eq. by apply fmap_is_Some.
  - by rewrite lookup_alter_ne.
Qed.

Lemma appendEvents_app evs1 evs2 s :
  appendEvents (evs1 ++ evs2) s = appendEvents evs2 (appendEvents evs1 s).
Proof. unfold appendEvents. by rewrite foldl_app. Qed.

(** A request to the recording runner appends the events taken to the
    history of the session it resolves, be it found or created. *)
Lemma chat_recording (cuc : Js.value -> Js.result Content)
      (reply : Content -> list Event) (abortAt : option nat) w req m :
  req_message req = Some m ->
  Js.truthy m = true ->
  store (chat cuc (replyRunner reply) false abortAt w req).1 !! tripleOf req
  = Some (appendEvents
            (match cuc m with
             | Js.Ok c => upToStop (reply c)
             | Js.Throw _ => []
             end)
            (default (mkSession (sessionIdOf req) (userIdOf req) ∅ [])
                     (store w !! tripleOf req))).
Proof.
  intros Hm Ht. rewrite (chat_live _ _ _ _ _ _ Hm Ht). cbn zeta.
  unfold tripleOf.
  set (u := userIdOf req). set (i := sessionIdOf req).
  assert (Hres : store (resolveSession false w u i).1 !! (appName, u, i)
                 = Some (default (mkSession i u ∅ [])
                                 (store w !! (appName, u, i)))).
  { destruct (store w !! (appName, u, i)) as [s|] eqn:Hs.
    - by rewrite (resolveSession_found _ _ _ _ Hs).
    - rewrite (resolveSession_fresh _ _ _ Hs). apply lookup_insert_eq. }
  set (w' := (resolveSession false w u i).1) in *.
  unfold streamCallback, streamBody.
  destruct (cuc m) as [c|e]; [|done].
  unfold replyRunner.
  destruct (eventLoop_recording u i c (reply c)
              (mkRun w' (openStream abortAt) 0 []) _ Hres) as [Hst [n Hn]].
  destruct (eventLoop _ _) as [r' res]. cbn in Hst, Hn. subst res. done.
Qed.

End SharedSession.

(** C10: a request that omits [userId] gets ['default-user'] and one that
    omits [sessionId] gets ['default-session'], and the handler treats it
    as the request that sends the default: the answers and the process
    states are the same.
    Outside mock mode and against the in-memory service, two requests with
    truthy messages that omit both, handled one after the other, address
    the same triple; both are answered with a stream; the first looks the
    session up and creates it only if it is missing, the second looks it up
    and creates nothing, whatever a runner that keeps sessions did in
    between, and its turn runs on the process state the first left, the
    session included.  With a runner that records the events of a turn in
    the session's history, the session stored after the second request
    holds the events of both turns, in order, after what it held
    before. *)
Theorem chat_defaults_share_session :
  forall (R : Type) (cuc : Js.value -> Js.result Content)
         (run : string -> string -> Content -> Generator InMemory.Store R)
         (reply : Content -> list Event)
         (w : World InMemory.Store R) (m1 m2 : Js.value)
         (a1 a2 : option nat) (userId sessionId : option string),
    tame run ->
    Js.truthy m1 = true ->
    Js.truthy m2 = true ->
    let T := (appName, "default-user", "default-session") in
    let req1 := mkRequest (Some m1) None None in
    let req2 := mkRequest (Some m2) None None in
    userIdOf (mkRequest (Some m1) None sessionId) = "default-user"
    /\ sessionIdOf (mkRequest (Some m1) userId None) = "default-session"
    /\ chat cuc run false a1 w req1
       = chat cuc run false a1 w
              (mkRequest (Some m1) (Some "default-user")
                         (Some "default-session"))
    /\ (forall (c : ascii) (id : string),
           chat cuc run false a1 w
                (mkRequest (Some m1) None (Some (String c id)))
           = chat cuc run false a1 w
                  (mkRequest (Some m1) (Some "default-user")
                             (Some (String c id)))
           /\ chat cuc run false a1 w
                   (mkRequest (Some m1) (Some (String c id)) None)
              = chat cuc run false a1 w
                     (mkRequest (Some m1) (Some (String c id))
                                (Some "default-session")))
    /\ tripleOf req1 = T
    /\ tripleOf req2 = T
    /\ (let '(w1, resp1) := chat cuc run false a1 w req1 in
        let '(w2, resp2) := chat cuc run false a2 w1 req2 in
        (exists s1 settled1, resp1 = RespStream s1 settled1)
        /\ (exists s2 settled2, resp2 = RespStream s2 settled2)
        /\ calls w1
           = calls w ++ CallGet T :: match store w !! T with
                                     | Some _ => []
                                     | None => [CallCreate T]
                                     end
        /\ calls w2 = calls w1 ++ [CallGet T]
        /\ is_Some (store w1 !! T)
        /\ (w2, resp2)
           = (let '(r, settled) :=
                streamCallback cuc run false m2
                               "default-user" "default-session"
                               (logCall (CallGet T) w1) (openStream a2) in
              (run_world r, RespStream (run_stream r) settled)))
    /\ (let taken m := match cuc m with
                       | Js.Ok c => upToStop (reply c)
                       | Js.Throw _ => []
                       end in
        let s0 := default (mkSession "default-session" "default-user" ∅ [])
                          (store w !! T) in
        let w1 := (chat cuc (replyRunner reply) false a1 w req1).1 in
        let w2 := (chat cuc (replyRunner reply) false a2 w1 req2).1 in
        store w1 !! T = Some (appendEvents (taken m1) s0)
        /\ store w2 !! T = Some (appendEvents (taken m1 ++ taken m2) s0)).
Proof.
  intros R cuc run reply w m1 m2 a1 a2 uid sid Htame Hm1 Hm2 T req1 req2.
  split_and!; try done.
  - rewrite (chat_live cuc run a1 w req1 m1 eq_refl Hm1). cbn zeta.
    change (userIdOf req1) with "default-user".
    change (sessionIdOf req1) with "default-session".
    set (w' := (resolveSession false w "default-user" "default-session").1).
    assert (Hw' : calls w'
                  = calls w ++ CallGet T :: match store w !! T with
                                            | Some _ => []
                                            | None => [CallCreate T]
                                            end
                  /\ is_Some (store w' !! T)).
    { subst w'. fold T. destruct (store w !! T) as [s|] eqn:Hs.
      - rewrite (resolveSession_found _ _ _ _ Hs). by eauto.
      - rewrite (resolveSession_fresh _ _ _ Hs). cbn.
        split; [by rewrite <- app_assoc|].
        fold T. rewrite lookup_insert_eq. by eauto. }
    destruct Hw' as [Hcalls Hsome].
    destruct (streamCallback_tame cuc run m1 "default-user" "default-session"
                                  w' (openStream a1) Htame) as [Hc1 Hs1].
    destruct (streamCallback cuc run false m1 _ _ w' _) as [r1 settled1].
    cbn [fst] in Hc1, Hs1.
    specialize (Hs1 T Hsome). destruct Hs1 as [s1 Hs1].
    rewrite (chat_live cuc run a2 (run_world r1) req2 m2 eq_refl Hm2).
    cbn zeta.
    change (userIdOf req2) with "default-user".
    change (sessionIdOf req2) with "default-session".
    rewrite (resolveSession_found _ _ _ _ Hs1). cbn [fst]. fold T.
    destruct (streamCallback_tame cuc run m2 "default-user" "default-session"
                (logCall (CallGet T) (run_world r1)) (openStream a2) Htame)
      as [Hc2 _].
    destruct (streamCallback cuc run false m2 _ _ _ _) as [r2 settled2].
    cbn [fst] in Hc2.
    split_and!; try done; try (by eauto).
    + by rewrite Hc1.
  - intros taken s0 w1 w2.
    assert (H1 : store w1 !! T = Some (appendEvents (taken m1) s0))
      by apply (chat_recording cuc reply a1 w req1 m1 eq_refl Hm1).
    split; [exact H1|].
    pose proof (chat_recording cuc reply a2 w1 req2 m2 eq_refl Hm2) as H2.
    change (tripleOf req2) with T in H2. rewrite H1 in H2. cbn [default] in H2.
    subst w2. rewrite H2. by rewrite appendEvents_app.
Qed.

Lemma chat_defaults_share_session_witness :
  let T := (appName, "default-user", "default-session") in
  let reply : Content -> list Event :=
    fun _ => [textEvent "noted"; finalEvent; textEvent "never"] in
  let w : World InMemory.Store unit := emptyWorld tt in
  let req1 := mkRequest (Some (Js.Str "one")) None None in
  let req2 := mkRequest (Some (Js.Str "two")) None None in
  let w1 := (chat stringContent (replyRunner reply) false None w req1).1 in
  let w2 := (chat stringContent (replyRunner reply) false (Some 1) w1 req2).1 in
  Js.truthy (Js.Str "one") = true
  /\ Js.truthy (Js.Str "two") = true
  /\ store w2 !! T
     = Some (appendEvents
               ([textEvent "noted"; finalEvent]
                ++ [textEvent "noted"; finalEvent])
               (mkSession "default-session" "default-user" ∅ [])).
Proof.
  cbv zeta. split_and!; [reflexivity | reflexivity |].
  destruct (chat_defaults_share_session
              unit stringContent
              (replyRunner (fun _ => [textEvent "noted"; finalEvent;
                                      textEvent "never"]))
              (fun _ => [textEvent "noted"; finalEvent; textEvent "never"])
              (emptyWorld tt) (Js.Str "one") (Js.Str "two") None (Some 1)
              (Some "alice") (Some "s1")
              (replyRunner_tame _) eq_refl eq_refl)
    as (_ & _ & _ & _ & _ & _ & _ & _ & Hshared).
  exact Hshared.
Defined.

(** * Further properties *)

(** ** Start-up and validation *)

(** X1: the server exits at start-up exactly when the API key is missing or
    empty, whatever [USE_MOCK] says; it serves in mock mode exactly when
    the key is ['DUMMY'], or the key is some other non-empty text and
    [USE_MOCK] is ['1']. *)
Theorem startup_needs_a_key :
  forall env : Env,
    (startup env = None
     <-> GOOGLE_GENAI_API_KEY env = None
         \/ GOOGLE_GENAI_API_KEY env = Some EmptyString)
    /\ (startup env = Some true
        <-> GOOGLE_GENAI_API_KEY env = Some "DUMMY"
            \/ (exists c key, GOOGLE_GENAI_API_KEY env = Some (String c key))
               /\ USE_MOCK env = Some "1").
Proof.
  intros [key flag]. unfold startup, missingEnvVars, mockModeOf; cbn.
  destruct key as [[|c key]|]; cbn.
  - split; [naive_solver|]. split; [done|]. intros [?|[(? & ? & ?) _]]; done.
  - split; [split; [done | intros [?|?]; done]|].
    split.
    + intros [= H].
      apply orb_true_iff in H as [H|H]; apply bool_decide_eq_true in H;
        [by left | right; eauto].
    + intros [H|[_ H]]; f_equal; apply orb_true_iff; [left|right];
        by apply bool_decide_eq_true.
  - split; [naive_solver|]. split; [done|].
    intros [?|[(? & ? & ?) _]]; done.
Qed.

(** X2: against the in-memory service, in either mode, a request is
    answered with the 400 [Message is required] exactly when its message is
    falsy, that is missing, [null], [false], [0] or the empty string; an
    array or an object, even an empty one, is let through. *)
Theorem chat_rejects_exactly_falsy_messages :
  forall (R : Type) (cuc : Js.value -> Js.result Content)
         (run : string -> string -> Content -> Generator InMemory.Store R)
         (mockMode : bool) (abortAt : option nat)
         (w : World InMemory.Store R) (req : ChatRequest),
    ((chat cuc run mockMode abortAt w req).2
     = RespJson 400 "Message is required"
     <-> Js.truthyOpt (req_message req) = false)
    /\ (Js.truthyOpt (req_message req) = false
        <-> req_message req = None
            \/ req_message req = Some Js.Null
            \/ req_message req = Some (Js.Bool false)
            \/ req_message req = Some (Js.Num 0)
            \/ req_message req = Some (Js.Str EmptyString)).
Proof.
  intros R cuc run mockMode abortAt w req. split.
  - split.
    + intros Hresp. destruct (Js.truthyOpt (req_message req)) eqn:Hm; [|done].
      destruct mockMode.
      * rewrite chat_mock in Hresp by done. done.
      * destruct (chat_live_streams cuc run abortAt w req Hm)
          as (w' & s & settled & Hchat).
        rewrite Hchat in Hresp. done.
    + intros Hm. by rewrite chat_falsy_message.
  - destruct (req_message req) as [[|[]|n|[|c s]|l|l]|]; cbn;
      try (split; [intros ?; done || naive_solver
                  | intros [?|[?|[?|[?|?]]]]; done]).
    destruct (Z.eqb_spec n 0) as [->|Hn]; cbn.
    + naive_solver.
    + split; [done|]. intros [?|[?|[?|[?|?]]]]; congruence.
Qed.

(** X3: for every session service, a live request with a truthy message
    whose lookup does not find a session and whose create is rejected is
    answered with the 500 [Failed to create or retrieve session]; no stream
    is opened, the runner is not started, and the handler has made exactly
    the two calls. *)
Theorem chat_answers_500_when_create_fails :
  forall (St : Type) (svc : SessionService St) (R : Type)
         (cuc : Js.value -> Js.result Content)
         (run : string -> string -> Content -> Generator St R)
         (abortAt : option nat) (w : World St R) (req : ChatRequest)
         (err : Js.error),
    Js.truthyOpt (req_message req) = true ->
    (forall s, getSession (store w) (tripleOf req) <> GetFound s) ->
    createSession (store w) (tripleOf req) ∅ = CreateThrew err ->
    chat cuc run false abortAt w req
    = (mkWorld (store w)
               (calls w ++ [CallGet (tripleOf req); CallCreate (tripleOf req)])
               (runner w),
       RespJson 500 "Failed to create or retrieve session").
Proof.
  intros St svc R cuc run abortAt w req err Hm Hget Hcreate.
  unfold chat, Js.truthyOpt in *.
  destruct (req_message req) as [m|]; [|done]. rewrite Hm; cbn.
  unfold resolveSession, tripleOf in *; cbn.
  destruct (getSession (store w) _) as [s| |e] eqn:Hg;
    [by destruct (Hget s) | |]; rewrite Hcreate; cbn;
    unfold logCall; cbn; by rewrite <- app_assoc.
Qed.

Lemma chat_answers_500_when_create_fails_witness :
  let w : World unit unit := mkWorld tt [] tt in
  let req := mkRequest (Some (Js.Str "hello")) (Some "alice") None in
  chat stringContent (scriptedRunner [textEvent "never"]) false None w req
  = (mkWorld (store w)
             (calls w ++ [CallGet (tripleOf req); CallCreate (tripleOf req)])
             (runner w),
     RespJson 500 "Failed to create or retrieve session").
Proof.
  apply (chat_answers_500_when_create_fails
           unit _ unit stringContent _ None (mkWorld tt [] tt)
           (mkRequest (Some (Js.Str "hello")) (Some "alice") None)
           Unavailable.down);
    [reflexivity | intros s; discriminate | reflexivity].
Defined.

(** X6: outside mock mode and against the in-memory service, a request
    with a truthy message that [createUserContent] rejects still resolves
    (and, if need be, creates) its session; the runner is not started, and
    the client gets a stream holding the single chunk
    [\n[Error: <message>]]. *)
Theorem chat_reports_content_failure :
  forall (R : Type) (cuc : Js.value -> Js.result Content)
         (run : string -> string -> Content -> Generator InMemory.Store R)
         (w : World InMemory.Store R) (req : ChatRequest)
         (m : Js.value) (err : Js.error),
    req_message req = Some m ->
    Js.truthy m = true ->
    cuc m = Js.Throw err ->
    exists w1 s,
      resolveSession false w (userIdOf req) (sessionIdOf req)
      = (w1, Resolved s)
      /\ store w1 !! tripleOf req = Some s
      /\ chat cuc run false None w req
         = (w1, RespStream
                  (mkStream [thrownChunk (Js.message err)] false None 0)
                  (Js.Ok tt)).
Proof.
  intros R cuc run w req m err Hreq Hm Hcuc.
  destruct (resolveSession_total w (userIdOf req) (sessionIdOf req))
    as (w1 & s & Hres & Hst).
  exists w1, s. split_and!; [done | done |].
  unfold chat. rewrite Hreq, Hm; cbn. rewrite Hres.
  unfold streamCallback, streamBody. by rewrite Hcuc.
Qed.

Lemma chat_reports_content_failure_witness :
  let req := mkRequest (Some (Js.Num 42)) (Some "alice") (Some "s1") in
  let w : World InMemory.Store unit := emptyWorld tt in
  exists w1 s,
    resolveSession false w (userIdOf req) (sessionIdOf req)
    = (w1, Resolved s)
    /\ store w1 !! tripleOf req = Some s
    /\ chat stringContent (scriptedRunner [textEvent "never"]) false None w req
       = (w1, RespStream
                (mkStream
                   [thrownChunk
                      "partOrString must be a Part object, string, or array"]
                   false None 0)
                (Js.Ok tt)).
Proof.
  apply (chat_reports_content_failure
           unit stringContent _ (emptyWorld tt)
           (mkRequest (Some (Js.Num 42)) (Some "alice") (Some "s1"))
           (Js.Num 42)
           (Js.Error "Error"
              "partOrString must be a Part object, string, or array"));
    reflexivity.
Defined.

(** ** More on the event loop *)

Section LoopMore.

Context {St : Type} `{!SessionService St} {R : Type}.
Implicit Types (gen more : Generator St R) (r : Run St R).

(** A relation between streams that awaiting and writing keep is kept by
    the whole callback, which otherwise does the same on both sides. *)
Variable related : Stream -> Stream -> Prop.
Hypothesis related_await :
  forall s s', related s s' -> related (awaitPoint s) (awaitPoint s').
Hypothesis related_write :
  forall s s' c, related s s' -> related (write s c) (write s' c).

Lemma eventLoop_related gen : forall w n seen s s',
  related s s' ->
  related (run_stream (eventLoop gen (mkRun w s n seen)).1)
          (run_stream (eventLoop gen (mkRun w s' n seen)).1).
Proof using related_await related_write.
  induction gen as [|step gen IH]; intros w n seen s s' Hrel; [done|].
  rewrite !eventLoop_cons; cbn [run_world run_stream run_eventCount run_seen].
  pose proof (related_await _ _ Hrel) as Hrel1.
  destruct (step w) as [w1 [ev|e]]; [|done]. cbn zeta.
  destruct (errorMarker ev) as [c|]; [by apply related_write|].
  destruct (forwarded ev) as [t|]; [by apply IH, related_write|].
  destruct (ev_final ev); [done | by apply IH].
Qed.

Lemma eventLoop_result_any_stream gen : forall w n seen s s',
  (eventLoop gen (mkRun w s n seen)).2 = (eventLoop gen (mkRun w s' n seen)).2.
Proof.
  induction gen as [|step gen IH]; intros w n seen s s'; [done|].
  rewrite !eventLoop_cons; cbn [run_world run_stream run_eventCount run_seen].
  destruct (step w) as [w1 [ev|e]]; [|done]. cbn zeta.
  destruct (errorMarker ev) as [c|]; [done|].
  destruct (forwarded ev) as [t|]; [apply IH|].
  destruct (ev_final ev); [done | apply IH].
Qed.

Variable createUserContent : Js.value -> Js.result Content.
Variable runAsync : string -> string -> Content -> Generator St R.

Lemma streamCallback_related mockMode m u i (w : World St R) s s' :
  related s s' ->
  related
    (run_stream (streamCallback createUserContent runAsync mockMode m u i w s).1)
    (run_stream (streamCallback createUserContent runAsync mockMode m u i w s').1).
Proof using related_await related_write.
  intros Hrel. unfold streamCallback, streamBody. destruct mockMode.
  { cbn. unfold sleep.
    by repeat (apply related_write || apply related_await). }
  destruct (createUserContent m) as [content|e]; cbn;
    [|by apply related_write].
  pose proof (eventLoop_related (runAsync u i content) w 0 [] s s' Hrel) as H.
  pose proof (eventLoop_result_any_stream (runAsync u i content) w 0 [] s s')
    as Hres.
  destruct (eventLoop _ (mkRun w s 0 [])) as [r res].
  destruct (eventLoop _ (mkRun w s' 0 [])) as [r' res'].
  cbn in H, Hres. subst res'.
  destruct res as [x|e]; cbn; [done | by apply related_write].
Qed.

End LoopMore.

(** X7: the loop takes the generator's segments strictly in turn and never
    looks ahead.  Over a generator made of two parts it runs the first
    part, and goes on to the second part, from the state reached, exactly
    when the first part ran to its end; once the first part has made the
    loop break or has thrown, the segments after it are never resumed, so
    whatever they would do to the process does not happen. *)
Theorem event_loop_runs_segments_in_turn :
  forall (St : Type) (svc : SessionService St) (R : Type)
         (gen more : Generator St R) (r : Run St R),
    eventLoop (gen ++ more) r
    = match eventLoop gen r with
      | (r', Js.Ok LoopExhausted) => eventLoop more r'
      | stopped => stopped
      end.
Proof. intros St svc R gen more r. apply eventLoop_app. Qed.

Lemma sooner_awaitPoint s s' :
  sooner s s' -> sooner (awaitPoint s) (awaitPoint s').
Proof.
  intros [Hpre Hlive]. split; [by rewrite !chunks_awaitPoint|].
  intros Hab. rewrite !chunks_awaitPoint.
  destruct (Hlive (aborted_awaitPoint _ Hab)) as (Hch & Hab' & Hlater).
  split; [done|]. unfold awaitPoint in *.
  destruct (abortIn s) as [[|n]|] eqn:E, (abortIn s') as [[|n']|] eqn:E';
    cbn in *; rewrite ?E, ?E'; cbn; try done; try lia.
  split; [done | lia].
Qed.

Lemma sooner_write s s' c : sooner s s' -> sooner (write s c) (write s' c).
Proof.
  intros [Hpre Hlive]. unfold write. apply sooner_awaitPoint.
  destruct (aborted s) eqn:Hab.
  - split; [|intros ?; congruence]. destruct (aborted s'); [done|]. cbn.
    by apply prefix_app_r.
  - destruct (Hlive eq_refl) as (Hch & Hab' & Hlater). rewrite Hab'. cbn.
    rewrite Hch. split; [done|]. by intros _.
Qed.

(** X8: aborting later never loses a chunk.  Of two clients of the same
    request, the one whose abort arrives no later has received an initial
    stretch of what the other has received when the callback is through. *)
Theorem later_abort_delivers_no_less :
  forall (St : Type) (svc : SessionService St) (R : Type)
         (createUserContent : Js.value -> Js.result Content)
         (runAsync : string -> string -> Content -> Generator St R)
         (mockMode : bool) (message : Js.value) (userId sessionId : string)
         (w : World St R) (early late : option nat),
    noLater early late ->
    chunks (run_stream
              (streamCallback createUserContent runAsync mockMode message
                              userId sessionId w (openStream early)).1)
    `prefix_of`
    chunks (run_stream
              (streamCallback createUserContent runAsync mockMode message
                              userId sessionId w (openStream late)).1).
Proof.
  intros St svc R cuc run mockMode m u i w early late Hlater.
  eapply (streamCallback_related sooner sooner_awaitPoint sooner_write).
  split; [done|]. by intros _.
Qed.

Lemma later_abort_delivers_no_less_witness :
  let run := scriptedRunner [textEvent "a"; textEvent "b"; textEvent "c"] in
  chunks (run_stream
            (streamCallback stringContent run false (Js.Str "hi") "u" "s"
                            (emptyWorld tt) (openStream (Some 1))).1)
  `prefix_of`
  chunks (run_stream
            (streamCallback stringContent run false (Js.Str "hi") "u" "s"
                            (emptyWorld tt) (openStream (Some 3))).1).
Proof.
  apply (later_abort_delivers_no_less InMemory.Store _ unit). cbn. lia.
Defined.

Section Scripted.

Context {St : Type} `{!SessionService St} {R : Type}.

Lemma scriptedRunner_cons (u i : string) (content : Content)
      (ev : Event) (evs : list Event) :
  @scriptedRunner St R (ev :: evs) u i content
  = @cons (GenStep St R) (fun w0 => (w0, Yield ev))
          (scriptedRunner evs u i content).
Proof. done. Qed.

Lemma scriptedRunner_app (u i : string) (content : Content)
      (evs1 evs2 : list Event) :
  @scriptedRunner St R (evs1 ++ evs2) u i content
  = @app (GenStep St R) (scriptedRunner evs1 u i content)
         (scriptedRunner evs2 u i content).
Proof. unfold scriptedRunner. apply List.map_app. Qed.

(** Events that all let the loop go on are all taken; a client that stays
    gets their texts. *)
Lemma eventLoop_scripted_continues (u i : string) (content : Content)
      (evs : list Event) :
  forall (w : World St R) (cs : list string) (lg n : nat) (seen : list Event),
    Forall continues evs ->
    eventLoop (scriptedRunner evs u i content)
              (mkRun w (mkStream cs false None lg) n seen)
    = (mkRun w (mkStream (cs ++ omap forwarded evs) false None lg)
             (n + length evs) (seen ++ evs),
       Js.Ok LoopExhausted).
Proof.
  induction evs as [|ev evs IH]; intros w cs lg n seen Hall.
  - cbn. by rewrite !app_nil_r, Nat.add_0_r.
  - apply Forall_cons in Hall as [[Hcode Hfin] Hall].
    rewrite scriptedRunner_cons, eventLoop_cons.
    cbn [run_world run_stream run_eventCount run_seen].
    unfold errorMarker. rewrite Hcode. cbn zeta.
    assert (Hom : omap forwarded (ev :: evs)
                  = option_list (forwarded ev) ++ omap forwarded evs).
    { cbn. by destruct (forwarded ev). }
    rewrite Hom.
    destruct (forwarded ev) as [t|] eqn:Hfw.
    + unfold write, awaitPoint; cbn. rewrite IH by done.
      cbn. rewrite <- !app_assoc. do 3 f_equal. lia.
    + rewrite (Hfin eq_refl). unfold awaitPoint; cbn. rewrite IH by done.
      cbn. rewrite <- !app_assoc. do 3 f_equal. lia.
Qed.

End Scripted.

(** X9: an event that carries an error code ends the turn at once,
    whatever else it holds.  After events that let the loop go on, the
    client gets their texts and then the error chunk with the event's code
    and message, or [Unknown ADK error] when the message is missing or
    empty; text on the error event itself is not written, and the events
    after it are not taken. *)
Theorem error_event_ends_the_turn :
  forall (St : Type) (svc : SessionService St) (R : Type)
         (w : World St R) (userId sessionId : string) (content : Content)
         (pre rest : list Event) (author : string)
         (parts : option (list Part)) (final : bool)
         (c : ascii) (code : string) (errorMessage : option string),
    Forall continues pre ->
    let ev := mkEvent author parts final (Some (String c code)) errorMessage in
    eventLoop (scriptedRunner (pre ++ ev :: rest) userId sessionId content)
              (mkRun w (openStream None) 0 [])
    = (mkRun w
             (mkStream
                (omap forwarded pre
                 ++ [adkErrorChunk (String c code)
                       (match errorMessage with
                        | Some (String d msg) => String d msg
                        | _ => "Unknown ADK error"
                        end)])
                false None 0)
             (S (length pre)) (pre ++ [ev]),
       Js.Ok LoopBreak).
Proof.
  intros St svc R w u i content pre rest author parts final c code msg Hpre ev.
  rewrite scriptedRunner_app, eventLoop_app.
  pose proof (eventLoop_scripted_continues u i content pre w [] 0 0 [] Hpre)
    as Hrun.
  unfold openStream in *. rewrite Hrun.
  rewrite scriptedRunner_cons, eventLoop_cons. cbn.
  do 3 f_equal. by destruct msg as [[|d m]|].
Qed.

Lemma error_event_ends_the_turn_witness :
  let pre := [textEvent "Working"; callEvent "analyze_transactions" Js.Null] in
  let rest := [textEvent "never written"] in
  let ev := mkEvent "model" (Some [PText "dropped"]) true (Some "429") None in
  eventLoop (scriptedRunner (pre ++ ev :: rest) "u" "s"
                            (mkContent "user" [PText "go"]))
            (mkRun (emptyWorld tt) (openStream None) 0 [])
  = (mkRun (emptyWorld tt)
           (mkStream
              (omap forwarded pre
               ++ [adkErrorChunk "429" "Unknown ADK error"])
              false None 0)
           (S (length pre)) (pre ++ [ev]),
     Js.Ok LoopBreak).
Proof.
  apply (error_event_ends_the_turn
           InMemory.Store _ unit (emptyWorld tt) "u" "s"
           (mkContent "user" [PText "go"])
           [textEvent "Working"; callEvent "analyze_transactions" Js.Null]
           [textEvent "never written"] "model" (Some [PText "dropped"]) true
           "4" "29" None).
  repeat constructor; cbn; done.
Defined.

(** X10: the [final] flag of an event that has text does not end the
    turn.  When every event of a turn carries a non-empty text as its
    first part and no error code, the loop takes all of them whatever their
    [final] flags are and a client that stays gets every text, in order. *)
Theorem final_flag_on_text_is_ignored :
  forall (St : Type) (svc : SessionService St) (R : Type)
         (w : World St R) (userId sessionId : string) (content : Content)
         (evs : list Event),
    Forall (fun ev => hasErrorCode ev = None
                      /\ exists c t, firstText ev = Some (String c t)) evs ->
    eventLoop (scriptedRunner evs userId sessionId content)
              (mkRun w (openStream None) 0 [])
    = (mkRun w (mkStream (omap firstText evs) false None 0)
             (length evs) evs,
       Js.Ok LoopExhausted).
Proof.
  intros St svc R w u i content evs Hall.
  assert (Hcont : Forall continues evs).
  { eapply Forall_impl; [exact Hall|]. intros ev (Hc & c & t & Ht).
    split; [done|]. unfold forwarded. by rewrite Hc, Ht. }
  assert (Htexts : omap forwarded evs = omap firstText evs).
  { clear Hcont. induction Hall as [|ev evs (Hc & c & t & Ht) _ IH]; [done|].
    cbn. rewrite IH. unfold forwarded. by rewrite Hc, Ht. }
  pose proof (eventLoop_scripted_continues u i content evs w [] 0 0 [] Hcont)
    as Hrun.
  unfold openStream. rewrite Hrun, Htexts. done.
Qed.

Lemma final_flag_on_text_is_ignored_witness :
  let evs := [mkEvent "model" (Some [PText "Your budget "]) true None None;
              mkEvent "model" (Some [PText "is on track."]) true None None] in
  eventLoop (scriptedRunner evs "u" "s" (mkContent "user" [PText "go"]))
            (mkRun (emptyWorld tt) (openStream None) 0 [])
  = (mkRun (emptyWorld tt) (mkStream (omap firstText evs) false None 0)
           (length evs) evs,
     Js.Ok LoopExhausted).
Proof.
  apply (final_flag_on_text_is_ignored InMemory.Store _ unit).
  repeat constructor; cbn; eauto.
Defined.

(** ** Static files *)

Lemma append_cons (a : ascii) (s t : string) :
  String a s +:+ t = String a (s +:+ t).
Proof. done. Qed.

Lemma append_assoc_string (s t u : string) : (s +:+ t) +:+ u = s +:+ t +:+ u.
Proof.
  induction s as [|a s IH]; [done|]. rewrite !append_cons. by rewrite IH.
Qed.

Lemma stripPrefix_append (pre s : string) : stripPrefix pre (pre +:+ s) = Some s.
Proof.
  induction pre as [|a pre IH]; [by destruct s|].
  rewrite append_cons. cbn. by rewrite Ascii.eqb_refl.
Qed.

Lemma stripPublic_public (p : string) : stripPublic ("/public/" +:+ p) = p.
Proof. unfold stripPublic. by rewrite stripPrefix_append. Qed.

Lemma splitOn_nonempty (sep : ascii) (s : string) : splitOn sep s <> [].
Proof.
  destruct s as [|a s]; [done|]. cbn.
  destruct (Ascii.eqb a sep); [done|]. by destruct (splitOn sep s).
Qed.

(** Splitting at a separator that is there splits both sides. *)
Lemma splitOn_append (sep : ascii) (p e : string) :
  splitOn sep (p +:+ String sep e) = splitOn sep p ++ splitOn sep e.
Proof.
  induction p as [|a p IH].
  - change (EmptyString +:+ String sep e) with (String sep e). cbn.
    by rewrite Ascii.eqb_refl.
  - rewrite append_cons. cbn. rewrite IH.
    destruct (Ascii.eqb a sep); [done|].
    pose proof (splitOn_nonempty sep p) as Hne.
    by destruct (splitOn sep p).
Qed.

Lemma splitOn_free (sep : ascii) (e : string) :
  freeOf sep e = true -> splitOn sep e = [e].
Proof.
  induction e as [|a e IH]; [done|]. cbn.
  intros [Ha He]%andb_true_iff. apply negb_true_iff in Ha.
  by rewrite Ha, (IH He).
Qed.

Lemma extension_after_dot (p e : string) :
  freeOf "." e = true -> extension (p +:+ "." +:+ e) = e.
Proof.
  intros He. unfold extension.
  change ("." +:+ e) with (String "." e).
  rewrite splitOn_append, (splitOn_free _ _ He), last_snoc.
  by destruct e.
Qed.

Lemma extension_without_dot (e : string) :
  freeOf "." e = true -> extension e = e.
Proof.
  intros He. unfold extension. rewrite (splitOn_free _ _ He). by destruct e.
Qed.

(** X11: the static route decides the content type by the text after the
    last dot of the path below [/public/], and by nothing else.  A file
    that can be read is answered with status 200, its content, and
    [application/javascript] when that text is [js], [text/css] when it is
    [css], and [text/html] for anything else; a name without a dot counts
    as its own extension. *)
Theorem static_content_type_by_last_dot :
  forall (readFileSync : string -> Js.result string) (p e data : string),
    freeOf "." e = true ->
    readFileSync ("./public/" +:+ p +:+ "." +:+ e) = Js.Ok data ->
    extension (p +:+ "." +:+ e) = e
    /\ extension e = e
    /\ servePublic readFileSync ("/public/" +:+ p +:+ "." +:+ e)
       = StaticBody data 200
           (if String.eqb e "js" then "application/javascript"
            else if String.eqb e "css" then "text/css"
            else "text/html").
Proof.
  intros read p e data He Hread.
  split_and!; [by apply extension_after_dot | by apply extension_without_dot |].
  unfold servePublic. rewrite stripPublic_public, Hread.
  by rewrite extension_after_dot.
Qed.

Lemma static_content_type_by_last_dot_witness :
  let files : gmap string string :=
    {[ "./public/vendor/app.min.js" := "console.log(1)" ]} in
  extension ("vendor/app.min" +:+ "." +:+ "js") = "js"
  /\ extension "js" = "js"
  /\ servePublic (readFrom files) ("/public/" +:+ "vendor/app.min" +:+ "." +:+ "js")
     = StaticBody "console.log(1)" 200
         (if String.eqb "js" "js" then "application/javascript"
          else if String.eqb "js" "css" then "text/css"
          else "text/html").
Proof.
  apply (static_content_type_by_last_dot
           (readFrom {[ "./public/vendor/app.min.js" := "console.log(1)" ]})
           "vendor/app.min" "js" "console.log(1)");
    reflexivity.
Defined.

(** X12: the page at [/] is the file the static route serves at
    [/public/index.html], there as [text/html] with status 200.  The two
    routes differ when the file cannot be read: then [/] still answers 200
    with a fallback text while the static route answers 404 [Not found]. *)
Theorem index_is_the_static_index :
  forall (readFileSync : string -> Js.result string),
    match readFileSync "./public/index.html" with
    | Js.Ok html =>
        serveIndex readFileSync = StaticHtml html
        /\ servePublic readFileSync "/public/index.html"
           = StaticBody html 200 "text/html"
    | Js.Throw _ =>
        serveIndex readFileSync
        = StaticText "Finance Agent Hono Server is running! (UI not found)"
                     200
        /\ servePublic readFileSync "/public/index.html"
           = StaticText "Not found" 404
    end.
Proof.
  intros read. unfold serveIndex, servePublic.
  change (stripPublic "/public/index.html") with "index.html".
  change ("./public/" +:+ "index.html") with "./public/index.html".
  by destruct (read "./public/index.html").
Qed.

(** ** The browser page *)

Section PageFacts.

Variable isWhite : ascii -> bool.

Lemma trimStart_shape (s : string) :
  (Ui.trimStart isWhite s = EmptyString /\ Ui.allWhite isWhite s = true)
  \/ (exists c r, Ui.trimStart isWhite s = String c r /\ isWhite c = false
                  /\ Ui.allWhite isWhite s = false).
Proof.
  induction s as [|a s IH]; [by left|]. cbn.
  destruct (isWhite a) eqn:Ha; cbn; [done|]. right. by exists a, s.
Qed.

Lemma trimEnd_keeps_head (c : ascii) (r : string) :
  isWhite c = false -> Ui.trimEnd isWhite (String c r) <> EmptyString.
Proof.
  intros Hc. cbn. destruct (Ui.trimEnd isWhite r); [by rewrite Hc | done].
Qed.

(** The trimmed text is empty exactly when the text is all white space. *)
Lemma trim_blank (s : string) :
  Js.truthyStr (Ui.trim isWhite s) = negb (Ui.allWhite isWhite s).
Proof.
  unfold Ui.trim.
  destruct (trimStart_shape s) as [[-> ->]|(c & r & -> & Hc & ->)]; [done|].
  pose proof (trimEnd_keeps_head c r Hc).
  by destruct (Ui.trimEnd isWhite (String c r)).
Qed.

Lemma readLoop_output (reads : list string) : forall st,
  Ui.readLoop reads st
  = Ui.mkState (Ui.userIdEl st) (Ui.sessionIdEl st) (Ui.messageEl st)
               (Ui.outputEl st +:+ String.concat EmptyString reads)
               (Ui.sendDisabled st) (Ui.cancelDisabled st) (Ui.statusEl st)
               (Ui.controller st).
Proof.
  induction reads as [|chunk reads IH]; intros st.
  - cbn. rewrite append_empty_r. by destruct st.
  - unfold Ui.readLoop in *. cbn [foldl]. rewrite IH. cbn.
    rewrite append_assoc_string. do 2 f_equal.
    destruct reads as [|next reads]; [by rewrite append_empty_r | done].
Qed.

Lemma begin_blank st :
  Ui.allWhite isWhite (Ui.messageEl st) = true -> Ui.begin isWhite st = None.
Proof. intros Hb. unfold Ui.begin. by rewrite trim_blank, Hb. Qed.

Lemma begin_sends st :
  Ui.allWhite isWhite (Ui.messageEl st) = false ->
  Ui.begin isWhite st
  = Some (Ui.mkState (Ui.userIdEl st) (Ui.sessionIdEl st) (Ui.messageEl st)
                     (Ui.outputEl st +:+ Ui.newMessageHeader)
                     true false "Streaming..." true,
          Ui.mkBody (Ui.trim isWhite (Ui.messageEl st))
                    (Ui.orDefault (Ui.userIdEl st) "demo-user")
                    (Ui.orDefault (Ui.sessionIdEl st) "demo-session-001")).
Proof. intros Hb. unfold Ui.begin. by rewrite trim_blank, Hb. Qed.

End PageFacts.

(** X13: a message that is empty or all white space sends nothing: the
    page stays exactly as it is, buttons, status and output included, and
    no request is made. *)
Theorem blank_message_sends_nothing :
  forall (isWhite : ascii -> bool) (fetch : Ui.Body -> Ui.FetchResult)
         (st : Ui.State),
    Ui.allWhite isWhite (Ui.messageEl st) = true ->
    Ui.sendMessage isWhite fetch st = (st, []).
Proof.
  intros isWhite fetch st Hb. unfold Ui.sendMessage.
  by rewrite begin_blank.
Qed.

Lemma blank_message_sends_nothing_witness :
  let st := Ui.mkState "alice" "s1" (" " +:+ Js.nl) "old" false true "" false in
  Ui.sendMessage Ui.asciiWhite (fun _ => Ui.FetchOk ["x"] Ui.ReadDone) st
  = (st, []).
Proof.
  apply (blank_message_sends_nothing Ui.asciiWhite). reflexivity.
Defined.

(** X14: however a send ends (the request fails, the answer is not ok,
    the stream completes, fails or is aborted), the page is left with the
    send button enabled, the cancel button disabled and no controller; the
    three inputs are as they were (the message is not cleared); the old
    output is still there, followed by the new-message header; the status
    is [Completed], [Error] or [Aborted]; and exactly one request was
    made, with the trimmed message and with user and session ids that are
    never empty. *)
Theorem send_always_resets_the_page :
  forall (isWhite : ascii -> bool) (fetch : Ui.Body -> Ui.FetchResult)
         (st : Ui.State),
    Ui.allWhite isWhite (Ui.messageEl st) = false ->
    let '(st', sent) := Ui.sendMessage isWhite fetch st in
    Ui.sendDisabled st' = false
    /\ Ui.cancelDisabled st' = true
    /\ Ui.controller st' = false
    /\ Ui.userIdEl st' = Ui.userIdEl st
    /\ Ui.sessionIdEl st' = Ui.sessionIdEl st
    /\ Ui.messageEl st' = Ui.messageEl st
    /\ (exists tail,
           Ui.outputEl st'
           = Ui.outputEl st +:+ Ui.newMessageHeader +:+ tail)
    /\ (Ui.statusEl st' = "Completed" \/ Ui.statusEl st' = "Error"
        \/ Ui.statusEl st' = "Aborted")
    /\ exists body,
        sent = [body]
        /\ Ui.body_message body = Ui.trim isWhite (Ui.messageEl st)
        /\ Js.truthyStr (Ui.body_message body) = true
        /\ Js.truthyStr (Ui.body_userId body) = true
        /\ Js.truthyStr (Ui.body_sessionId body) = true.
Proof.
  intros isWhite fetch st Hb. unfold Ui.sendMessage.
  rewrite (begin_sends isWhite st Hb).
  set (body := Ui.mkBody _ _ _).
  assert (Hbody : Js.truthyStr (Ui.body_message body) = true
                  /\ Js.truthyStr (Ui.body_userId body) = true
                  /\ Js.truthyStr (Ui.body_sessionId body) = true).
  { subst body; cbn. rewrite trim_blank, Hb. unfold Ui.orDefault.
    split_and!; [done | |].
    - by destruct (Ui.userIdEl st).
    - by destruct (Ui.sessionIdEl st). }
  unfold Ui.finish, Ui.catchBlock.
  destruct (fetch body) as [err|[text|err]|reads [|err]];
    rewrite ?readLoop_output;
    repeat match goal with
           | |- context [String.eqb ?a ?b] => destruct (String.eqb a b)
           end;
    cbn;
    (split_and!; try done;
     [ rewrite ?append_assoc_string; eauto
     | auto
     | exists body; split_and!; try done; apply Hbody ]).
Qed.

Lemma send_always_resets_the_page_witness :
  let st := Ui.mkState "" "s1" " hi " "old" false true "" false in
  let fetch : Ui.Body -> Ui.FetchResult :=
    fun _ => Ui.FetchOk ["a"] (Ui.ReadRejected (Js.Error "AbortError" "gone")) in
  let '(st', sent) := Ui.sendMessage Ui.asciiWhite fetch st in
  Ui.sendDisabled st' = false
  /\ Ui.cancelDisabled st' = true
  /\ Ui.controller st' = false
  /\ Ui.userIdEl st' = Ui.userIdEl st
  /\ Ui.sessionIdEl st' = Ui.sessionIdEl st
  /\ Ui.messageEl st' = Ui.messageEl st
  /\ (exists tail,
         Ui.outputEl st'
         = Ui.outputEl st +:+ Ui.newMessageHeader +:+ tail)
  /\ (Ui.statusEl st' = "Completed" \/ Ui.statusEl st' = "Error"
      \/ Ui.statusEl st' = "Aborted")
  /\ exists body,
      sent = [body]
      /\ Ui.body_message body = Ui.trim Ui.asciiWhite (Ui.messageEl st)
      /\ Js.truthyStr (Ui.body_message body) = true
      /\ Js.truthyStr (Ui.body_userId body) = true
      /\ Js.truthyStr (Ui.body_sessionId body) = true.
Proof.
  apply (send_always_resets_the_page
           Ui.asciiWhite
           (fun _ => Ui.FetchOk ["a"]
                       (Ui.ReadRejected (Js.Error "AbortError" "gone")))
           (Ui.mkState "" "s1" " hi " "old" false true "" false)).
  reflexivity.
Defined.

(** X15: what was read stays on the page.  When the answer is ok, the
    output ends up as the old output, the new-message header, every chunk
    read, in order, and then nothing if the stream completed, the note
    [[Stream aborted]] if reading was aborted, or an [[Error]] note with the
    error's message otherwise; the status is [Completed], [Aborted] or
    [Error] accordingly. *)
Theorem chunks_read_stay_on_the_page :
  forall (isWhite : ascii -> bool) (fetch : Ui.Body -> Ui.FetchResult)
         (st : Ui.State) (reads : list string) (ending : Ui.ReadEnd),
    Ui.allWhite isWhite (Ui.messageEl st) = false ->
    fetch (Ui.mkBody (Ui.trim isWhite (Ui.messageEl st))
                     (Ui.orDefault (Ui.userIdEl st) "demo-user")
                     (Ui.orDefault (Ui.sessionIdEl st) "demo-session-001"))
    = Ui.FetchOk reads ending ->
    let st' := (Ui.sendMessage isWhite fetch st).1 in
    Ui.outputEl st'
    = Ui.outputEl st +:+ Ui.newMessageHeader
      +:+ String.concat EmptyString reads
      +:+ match ending with
          | Ui.ReadDone => EmptyString
          | Ui.ReadRejected err =>
              if String.eqb (Js.name err) "AbortError" then Ui.abortedNote
              else Ui.errorNote (Js.message err)
          end
    /\ Ui.statusEl st'
       = match ending with
         | Ui.ReadDone => "Completed"
         | Ui.ReadRejected err =>
             if String.eqb (Js.name err) "AbortError" then "Aborted"
             else "Error"
         end.
Proof.
  intros isWhite fetch st reads ending Hb Hfetch. unfold Ui.sendMessage.
  rewrite (begin_sends isWhite st Hb), Hfetch. cbn [fst].
  unfold Ui.finish, Ui.catchBlock. rewrite readLoop_output.
  destruct ending as [|err]; [|destruct (String.eqb (Js.name err) _)]; cbn;
    rewrite ?append_empty_r, ?append_assoc_string; done.
Qed.

Lemma chunks_read_stay_on_the_page_witness :
  let st := Ui.mkState "alice" "" "analyze" "old" false true "" false in
  let fetch : Ui.Body -> Ui.FetchResult :=
    fun _ => Ui.FetchOk ["Hel"; "lo"]
               (Ui.ReadRejected (Js.Error "AbortError" "aborted")) in
  let st' := (Ui.sendMessage Ui.asciiWhite fetch st).1 in
  Ui.outputEl st'
  = Ui.outputEl st +:+ Ui.newMessageHeader
    +:+ String.concat EmptyString ["Hel"; "lo"]
    +:+ (if String.eqb "AbortError" "AbortError" then Ui.abortedNote
         else Ui.errorNote "aborted")
  /\ Ui.statusEl st'
     = (if String.eqb "AbortError" "AbortError" then "Aborted" else "Error").
Proof.
  apply (chunks_read_stay_on_the_page
           Ui.asciiWhite
           (fun _ => Ui.FetchOk ["Hel"; "lo"]
                       (Ui.ReadRejected (Js.Error "AbortError" "aborted")))
           (Ui.mkState "alice" "" "analyze" "old" false true "" false)
           ["Hel"; "lo"]
           (Ui.ReadRejected (Js.Error "AbortError" "aborted")));
    reflexivity.
Defined.

(** ** The page against the server *)

Lemma requestOfBody_truthy (b : Ui.Body) :
  Js.truthyStr (Ui.body_message b) = true ->
  Js.truthyOpt (req_message (requestOfBody b)) = true.
Proof. done. Qed.

(** X16: in mock mode, sending any message that is not blank from the page
    leaves the server's state untouched and the page showing the old
    output, the new-message header and the three canned lines, with status
    [Completed] and the buttons reset. *)
Theorem page_shows_the_mock_answer :
  forall (St : Type) (svc : SessionService St) (R : Type)
         (isWhite : ascii -> bool)
         (cuc : Js.value -> Js.result Content)
         (run : string -> string -> Content -> Generator St R)
         (w : World St R) (st : Ui.State),
    Ui.allWhite isWhite (Ui.messageEl st) = false ->
    sendToServer isWhite cuc run true w st
    = (w, Ui.mkState (Ui.userIdEl st) (Ui.sessionIdEl st) (Ui.messageEl st)
                     (Ui.outputEl st +:+ Ui.newMessageHeader
                      +:+ mockChunk1 +:+ mockChunk2 +:+ mockChunk3)
                     false true "Completed" false).
Proof.
  intros St svc R isWhite cuc run w st Hb. unfold sendToServer.
  rewrite (begin_sends isWhite st Hb).
  rewrite chat_mock by (apply requestOfBody_truthy; cbn;
                        by rewrite trim_blank, Hb).
  unfold fetchResultOf, Ui.finish. rewrite readLoop_output. cbn.
  by rewrite append_assoc_string.
Qed.

Lemma page_shows_the_mock_answer_witness :
  let st := Ui.mkState "" "" "Analyze my spending" "" false true "" false in
  sendToServer Ui.asciiWhite stringContent (scriptedRunner []) true
               (emptyWorld tt) st
  = (emptyWorld tt,
     Ui.mkState (Ui.userIdEl st) (Ui.sessionIdEl st) (Ui.messageEl st)
                (Ui.outputEl st +:+ Ui.newMessageHeader
                 +:+ mockChunk1 +:+ mockChunk2 +:+ mockChunk3)
                false true "Completed" false).
Proof.
  apply (page_shows_the_mock_answer InMemory.Store _ unit). reflexivity.
Defined.

(** X17: outside mock mode and against the in-memory service, a message
    sent from the page is never turned away: the handler answers with a
    stream, for the triple made of the page's user and session ids (or
    [demo-user] and [demo-session-001] when a field is empty), so the
    server's own defaults never apply.  The page appends every chunk of
    that stream and ends with status [Completed], and it does so also when
    the stream ends with an error chunk. *)
Theorem page_request_is_always_streamed :
  forall (R : Type) (isWhite : ascii -> bool)
         (cuc : Js.value -> Js.result Content)
         (run : string -> string -> Content -> Generator InMemory.Store R)
         (w : World InMemory.Store R) (st : Ui.State),
    Ui.allWhite isWhite (Ui.messageEl st) = false ->
    let body := Ui.mkBody (Ui.trim isWhite (Ui.messageEl st))
                          (Ui.orDefault (Ui.userIdEl st) "demo-user")
                          (Ui.orDefault (Ui.sessionIdEl st) "demo-session-001") in
    tripleOf (requestOfBody body)
    = (appName, Ui.orDefault (Ui.userIdEl st) "demo-user",
       Ui.orDefault (Ui.sessionIdEl st) "demo-session-001")
    /\ exists w' s settled,
        chat cuc run false None w (requestOfBody body)
        = (w', RespStream s settled)
        /\ sendToServer isWhite cuc run false w st
           = (w', Ui.mkState (Ui.userIdEl st) (Ui.sessionIdEl st)
                             (Ui.messageEl st)
                             (Ui.outputEl st +:+ Ui.newMessageHeader
                              +:+ String.concat EmptyString (chunks s))
                             false true "Completed" false).
Proof.
  intros R isWhite cuc run w st Hb body. split; [done|].
  assert (Hm : Js.truthyOpt (req_message (requestOfBody body)) = true).
  { apply requestOfBody_truthy. subst body; cbn. by rewrite trim_blank, Hb. }
  destruct (chat_live_streams cuc run None w (requestOfBody body) Hm)
    as (w' & s & settled & Hchat).
  exists w', s, settled. split; [done|].
  unfold sendToServer. rewrite (begin_sends isWhite st Hb).
  fold body. rewrite Hchat.
  unfold fetchResultOf, Ui.finish. rewrite readLoop_output. cbn.
  by rewrite append_assoc_string.
Qed.

Lemma page_request_is_always_streamed_witness :
  let st := Ui.mkState "" "s9" "What did I spend?" "" false true "" false in
  let run : string -> string -> Content -> Generator InMemory.Store unit :=
    scriptedRunner [textEvent "Looking"; errorEvent "429" "quota exceeded"] in
  let body := Ui.mkBody (Ui.trim Ui.asciiWhite (Ui.messageEl st))
                        (Ui.orDefault (Ui.userIdEl st) "demo-user")
                        (Ui.orDefault (Ui.sessionIdEl st) "demo-session-001") in
  tripleOf (requestOfBody body)
  = (appName, Ui.orDefault (Ui.userIdEl st) "demo-user",
     Ui.orDefault (Ui.sessionIdEl st) "demo-session-001")
  /\ exists w' s settled,
      chat stringContent run false None (emptyWorld tt) (requestOfBody body)
      = (w', RespStream s settled)
      /\ sendToServer Ui.asciiWhite stringContent run false (emptyWorld tt) st
         = (w', Ui.mkState (Ui.userIdEl st) (Ui.sessionIdEl st)
                           (Ui.messageEl st)
                           (Ui.outputEl st +:+ Ui.newMessageHeader
                            +:+ String.concat EmptyString (chunks s))
                           false true "Completed" false).
Proof.
  apply (page_request_is_always_streamed
           unit Ui.asciiWhite stringContent
           (scriptedRunner [textEvent "Looking";
                            errorEvent "429" "quota exceeded"])
           (emptyWorld tt)
           (Ui.mkState "" "s9" "What did I spend?" "" false true "" false)).
  reflexivity.
Defined.

(** ** The developer tools link *)

Lemma endsWithSlash_append (s : string) : Ui.endsWithSlash (s +:+ "/") = true.
Proof.
  induction s as [|a s IH]; [done|]. rewrite append_cons.
  change (Ui.endsWithSlash (String a (s +:+ "/")))
    with (match s +:+ "/" with
          | EmptyString => Ascii.eqb a "/"
          | String _ _ => Ui.endsWithSlash (s +:+ "/")
          end).
  rewrite IH. by destruct s.
Qed.

Lemma dropFinalSlash_spec (s : string) :
  Ui.dropFinalSlash s +:+ "/"
  = if Ui.endsWithSlash s then s else s +:+ "/".
Proof.
  induction s as [|a s IH]; [done|].
  destruct s as [|b s].
  - cbn. by destruct (Ascii.eqb_spec a "/") as [->|].
  - change (Ui.dropFinalSlash (String a (String b s)))
      with (String a (Ui.dropFinalSlash (String b s))).
    change (Ui.endsWithSlash (String a (String b s)))
      with (Ui.endsWithSlash (String b s)).
    rewrite append_cons, IH. by destruct (Ui.endsWithSlash (String b s)).
Qed.

(** X18: the address the page checks always ends with a slash: it is the
    field's value, or [http://localhost:3001] when the field is empty, as
    it is when it already ends with a slash and with one slash added
    otherwise; normalising an address twice changes nothing more. *)
Theorem check_url_ends_with_one_more_slash_at_most :
  forall value : string,
    let address := Ui.orDefault value "http://localhost:3001" in
    Ui.checkUrl value
    = (if Ui.endsWithSlash address then address else address +:+ "/")
    /\ Ui.endsWithSlash (Ui.checkUrl value) = true
    /\ Ui.checkUrl (Ui.checkUrl value) = Ui.checkUrl value.
Proof.
  intros value address.
  assert (Hurl : Ui.checkUrl value
                 = if Ui.endsWithSlash address then address
                   else address +:+ "/")
    by apply dropFinalSlash_spec.
  assert (Hend : Ui.endsWithSlash (Ui.checkUrl value) = true).
  { rewrite Hurl. destruct (Ui.endsWithSlash address) eqn:He; [done|].
    apply endsWithSlash_append. }
  split_and!; [done | done |].
  unfold Ui.checkUrl at 1. rewrite dropFinalSlash_spec.
  assert (Hor : Ui.orDefault (Ui.checkUrl value) "http://localhost:3001"
                = Ui.checkUrl value).
  { unfold Ui.orDefault. destruct (Ui.checkUrl value); [done|done]. }
  by rewrite Hor, Hend.
Qed.
